(** * LinkedIn post consolidation extension: extraction, formatting, scanning

    A shallow embedding of the extraction / formatting / scanning core of the
    extension ([content/post-extractor.js], [utils/data-formatter.js],
    [utils/linkedin-selectors.js], [content/dom-scanner.js]) together with the
    properties of the design document that concern it, and of the storage
    class that the scanner reads its settings from and saves its posts to,
    with further properties of this code.

    Conventions of the embedding.
    - A JavaScript string is the list of its UTF-16 code units ([jsstring]).
    - A JavaScript exception is the [Throw] branch of [Exc]; [try]/[catch]
      is a [match] on it.
    - JavaScript numbers are idealised as exact rationals with [NaN] and the
      two infinities; signed zero and binary rounding are not represented.
    - Host facilities that the code reads (clock, random source, DOM) are
      explicit arguments. *)

From Stdlib Require Import ZArith NArith QArith Qround Lqa List String Ascii
  Bool Lia Sorted.
Import ListNotations.

Set Implicit Arguments.

(* ================================================================== *)
(** * JavaScript strings *)
(* ================================================================== *)

Module JS.

Local Open Scope N_scope.

(** A string is its sequence of UTF-16 code units. *)
Definition jsstring := list N.

(** ASCII literals of the source. *)
Definition lit (s : string) : jsstring :=
  map N_of_ascii (list_ascii_of_string s).

Definition char_eqb (a b : N) : bool := N.eqb a b.

Fixpoint str_eqb (a b : jsstring) : bool :=
  match a, b with
  | [], [] => true
  | x :: a', y :: b' => char_eqb x y && str_eqb a' b'
  | _, _ => false
  end.

Definition in_range (lo hi c : N) : bool := (lo <=? c) && (c <=? hi).

(** [\s] of a regular expression and the characters [String.prototype.trim]
    strips: WhiteSpace and LineTerminator of ECMAScript. *)
Definition is_ws (c : N) : bool :=
  in_range 9 13 c || (c =? 32) || (c =? 160) || (c =? 5760)
  || in_range 8192 8202 c || (c =? 8232) || (c =? 8233) || (c =? 8239)
  || (c =? 8287) || (c =? 12288) || (c =? 65279).

(** [\d] *)
Definition is_digit (c : N) : bool := in_range 48 57 c.

Definition digit_val (c : N) : Z := Z.of_N (c - 48).

Fixpoint trim_start (s : jsstring) : jsstring :=
  match s with
  | [] => []
  | c :: r => if is_ws c then trim_start r else s
  end.

Fixpoint trim_end (s : jsstring) : jsstring :=
  match s with
  | [] => []
  | c :: r =>
      match trim_end r with
      | [] => if is_ws c then [] else [c]
      | r' => c :: r'
      end
  end.

(** [s.trim()] *)
Definition trim (s : jsstring) : jsstring := trim_end (trim_start s).

Fixpoint starts_with (p s : jsstring) : bool :=
  match p, s with
  | [], _ => true
  | x :: p', y :: s' => char_eqb x y && starts_with p' s'
  | _ :: _, [] => false
  end.

(** [s.includes(p)] *)
Fixpoint includes (s p : jsstring) : bool :=
  starts_with p s ||
  match s with
  | [] => false
  | _ :: r => includes r p
  end.

(** [s.replace(/\s+/g, ' ')]: every maximal run of white space becomes one
    space.  [in_run] tells whether the previous unit was white space. *)
Fixpoint replace_ws_runs (in_run : bool) (s : jsstring) : jsstring :=
  match s with
  | [] => []
  | c :: r =>
      if is_ws c
      then (if in_run then replace_ws_runs true r
            else 32 :: replace_ws_runs true r)
      else c :: replace_ws_runs false r
  end.

(** [String.prototype.toLowerCase] on the code units whose image, or whose
    preimage, is ASCII: [A-Z], the Kelvin sign U+212A (to [k]) and U+0130
    (to [i] followed by U+0307).  Every other mapping of the Unicode tables
    sends a non-ASCII letter to non-ASCII letters; it is left out, since the
    functions that use [toLowerCase] only inspect the ASCII units and the
    white space of a lowered string. *)
Definition lower_unit (c : N) : jsstring :=
  if in_range 65 90 c then [c + 32]
  else if c =? 8490 then [107]
  else if c =? 304 then [105; 775]
  else [c].

Definition toLowerCase (s : jsstring) : jsstring := flat_map lower_unit s.

(** Case-insensitive comparison of a unit with an ASCII letter under the
    [i] flag without [u]: canonicalisation never maps a non-ASCII unit to an
    ASCII one, so only the two ASCII cases of the letter match. *)
Definition unit_is_letter_i (lower : N) (c : N) : bool :=
  (c =? lower) || (c =? lower - 32).

(** Decimal rendering of a non-negative integer, as template strings and
    [String(n)] give it. *)
Fixpoint digits_of_pos (fuel : nat) (n : N) (acc : jsstring) : jsstring :=
  match fuel with
  | O => acc
  | S f =>
      let acc' := (48 + n mod 10) :: acc in
      if n <? 10 then acc' else digits_of_pos f (n / 10) acc'
  end.

Definition decimal_of_N (n : N) : jsstring :=
  digits_of_pos (S (N.to_nat (N.log2 n))) n [].

Definition decimal_of_Z (z : Z) : jsstring :=
  match z with
  | Zneg p => 45 :: decimal_of_N (Npos p)
  | _ => decimal_of_N (Z.to_N z)
  end.

(** Rendering in radix 36, [Number.prototype.toString(36)] on a
    non-negative integer. *)
Definition digit36 (d : N) : N := if d <? 10 then 48 + d else 87 + d.

Fixpoint base36_of_pos (fuel : nat) (n : N) (acc : jsstring) : jsstring :=
  match fuel with
  | O => acc
  | S f =>
      let acc' := digit36 (n mod 36) :: acc in
      if n <? 36 then acc' else base36_of_pos f (n / 36) acc'
  end.

Definition base36_of_N (n : N) : jsstring :=
  base36_of_pos (S (N.to_nat (N.log2 n))) n [].

(** Longest prefix of decimal digits and the rest. *)
Fixpoint span_digits (s : jsstring) : jsstring * jsstring :=
  match s with
  | c :: r =>
      if is_digit c
      then let '(d, rest) := span_digits r in (c :: d, rest)
      else ([], s)
  | [] => ([], [])
  end.

(** Value of a digit string read in radix 10. *)
Definition digits_value (ds : jsstring) : Z :=
  fold_left (fun acc c => (10 * acc + digit_val c)%Z) ds 0%Z.

(** ** Numbers *)

(** A JavaScript number, idealised: exact rationals, [NaN], the infinities. *)
Inductive number : Type :=
| NaN
| Inf (negative : bool)
| Fin (q : Q).

Definition num_of_Z (z : Z) : number := Fin (inject_Z z).

Definition isNaN (n : number) : bool :=
  match n with NaN => true | _ => false end.

(** [x * k] for a positive constant [k]. *)
Definition times (x : number) (k : Z) : number :=
  match x with
  | NaN => NaN
  | Inf b => Inf b
  | Fin q => Fin (q * inject_Z k)
  end.

(** [Math.round]: nearest integer, halves towards plus infinity. *)
Definition Math_round (x : number) : number :=
  match x with
  | Fin q => num_of_Z (Qfloor (q + (1 # 2)))
  | other => other
  end.

Definition pow10 (e : Z) : Q :=
  if (0 <=? e)%Z then inject_Z (10 ^ e) else 1 # Z.to_pos (10 ^ (- e)).

(** Sign prefix of [parseInt] and [parseFloat]. *)
Definition take_sign (s : jsstring) : bool * jsstring :=
  match s with
  | 45 :: r => (true, r)
  | 43 :: r => (false, r)
  | _ => (false, s)
  end.

(** [parseInt(s, 10)] *)
Definition parseInt10 (s : jsstring) : number :=
  let '(neg, r) := take_sign (trim_start s) in
  let '(ds, _) := span_digits r in
  match ds with
  | [] => NaN
  | _ => num_of_Z (if neg then - digits_value ds else digits_value ds)
  end.

(** Value of an ExponentPart at the head of [s], [0] when there is none. *)
Definition exponent_part (s : jsstring) : Z :=
  match s with
  | c :: r =>
      if unit_is_letter_i 101 c then
        let '(neg, r') := take_sign r in
        let '(ds, _) := span_digits r' in
        match ds with
        | [] => 0%Z
        | _ => if neg then (- digits_value ds)%Z else digits_value ds
        end
      else 0%Z
  | [] => 0%Z
  end.

(** Longest prefix of [s] that is a StrUnsignedDecimalLiteral. *)
Definition unsigned_literal (s : jsstring) : number :=
  if starts_with (lit "Infinity") s then Inf false
  else
    let '(ip, r1) := span_digits s in
    match r1 with
    | 46 :: r2 =>
        let '(fp, r3) := span_digits r2 in
        match ip ++ fp with
        | [] => NaN
        | ds =>
            Fin (inject_Z (digits_value ds)
                 * pow10 (exponent_part r3 - Z.of_nat (List.length fp)))
        end
    | _ =>
        match ip with
        | [] => NaN
        | _ => Fin (inject_Z (digits_value ip) * pow10 (exponent_part r1))
        end
    end.

Definition negate (x : number) : number :=
  match x with
  | NaN => NaN
  | Inf b => Inf (negb b)
  | Fin q => Fin (- q)
  end.

(** [parseFloat(s)] *)
Definition parseFloat (s : jsstring) : number :=
  let '(neg, r) := take_sign (trim_start s) in
  let v := unsigned_literal r in
  if neg then negate v else v.

(** ** Loosely typed leaves *)

Inductive scalar : Type :=
| SUndefined
| SNull
| SBool (b : bool)
| SNum (n : number)
| SStr (s : jsstring).

Definition is_zero (n : number) : bool :=
  match n with
  | Fin q => Qeq_bool q 0
  | _ => false
  end.

(** ToBoolean *)
Definition truthy (v : scalar) : bool :=
  match v with
  | SUndefined | SNull => false
  | SBool b => b
  | SNum n => negb (isNaN n || is_zero n)
  | SStr [] => false
  | SStr _ => true
  end.

Definition str_truthy (s : jsstring) : bool :=
  match s with [] => false | _ => true end.

(** ** Exceptions *)

Inductive error : Type :=
| Error (message : string)
| TypeError
| RangeError
| SyntaxError.

Inductive Exc (A : Type) : Type :=
| Ok (a : A)
| Throw (e : error).

Arguments Ok {A} a.
Arguments Throw {A} e.

Definition bind {A B} (m : Exc A) (k : A -> Exc B) : Exc B :=
  match m with
  | Ok a => k a
  | Throw e => Throw e
  end.

Definition throws {A} (m : Exc A) : bool :=
  match m with Ok _ => false | Throw _ => true end.

End JS.

Export JS.

Notation "x <- m ;; k" := (bind m (fun x => k))
  (at level 61, m at next level, right associativity).

(* ================================================================== *)
(** * The page: DOM elements as the code uses them *)
(* ================================================================== *)

Module Dom.

(** What a caller hands to [querySelector]: a selector string, or (as
    [getAllSelectors] can produce) an object that is not a string. *)
Inductive SelArg : Type :=
| SelStr (selector : jsstring)
| SelObj.

Definition selarg_eqb (a b : SelArg) : bool :=
  match a, b with
  | SelStr x, SelStr y => str_eqb x y
  | SelObj, SelObj => true
  | _, _ => false
  end.

(** The members of an element (or of a test double standing for one) that
    the code reads.  [el_key] is the identity of the node, which [===] and
    [Array.prototype.includes] compare.  [el_getAttribute = None] is an
    object without that method; a missing [querySelector] is the function
    that always throws, since the code calls it without testing for it. *)
#[warnings="-register-all"]
Inductive Element : Type := mkElement {
  el_key : nat;
  el_getAttribute : option (jsstring -> option jsstring);
  el_textContent : option jsstring;
  el_href : option jsstring;
  el_src : option jsstring;
  el_querySelector : SelArg -> Exc (option Element);
  el_querySelectorAll : SelArg -> Exc (list Element)
}.

(** [el.getAttribute(name)]: [null] is [None]. *)
Definition getAttribute (el : Element) (name : jsstring)
  : Exc (option jsstring) :=
  match el_getAttribute el with
  | Some f => Ok (f name)
  | None => Throw TypeError
  end.

(** [el.textContent.trim()] *)
Definition textContent_trim (el : Element) : Exc jsstring :=
  match el_textContent el with
  | Some t => Ok (trim t)
  | None => Throw TypeError
  end.

(** Truthiness of an attribute value or of a property holding a string. *)
Definition truthy_str (v : option jsstring) : bool :=
  match v with
  | Some (_ :: _) => true
  | _ => false
  end.

(** [a || b] on such values *)
Definition or_else (a b : option jsstring) : option jsstring :=
  if truthy_str a then a else b.

End Dom.

Export Dom.

(* ================================================================== *)
(** * utils/linkedin-selectors.js *)
(* ================================================================== *)

Module LinkedInSelectors.

(** The selector tables: an array of selector strings, or an object whose
    members are tables. *)
#[warnings="-register-all"]
Inductive SelNode : Type :=
| SArr (selectors : list jsstring)
| SObj (members : list (jsstring * SelNode)).

(** Selector literals of the source; a double quote inside a selector is
    written as a backquote here. *)
Definition sel (s : string) : jsstring :=
  map (fun c => if N.eqb c 96 then 34%N else c) (lit s).

Definition arr (l : list string) : SelNode := SArr (map sel l).

Definition postSelectors : SelNode :=
  arr [ "div[data-id^=`urn:li:activity`]";
        ".feed-shared-update-v2";
        ".occludable-update";
        "article[data-id]" ]%string.

Definition contentSelectors : SelNode :=
  SObj
    [ (lit "text",
       arr [ ".feed-shared-text .break-words";
             ".feed-shared-update-v2__description .break-words";
             ".feed-shared-text__text-view";
             ".feed-shared-inline-show-more-text .break-words" ]%string);
      (lit "author",
       SObj
         [ (lit "name",
            arr [ ".feed-shared-actor__name .visually-hidden";
                  ".feed-shared-actor__name";
                  ".update-components-actor__name .visually-hidden";
                  ".update-components-actor__name" ]%string);
           (lit "profile",
            arr [ ".feed-shared-actor__container-link";
                  ".update-components-actor__container .app-aware-link";
                  ".feed-shared-actor a[href*=`/in/`]" ]%string);
           (lit "image",
            arr [ ".feed-shared-actor__avatar .EntityPhoto-circle-3";
                  ".feed-shared-actor__avatar img";
                  ".update-components-actor__avatar img" ]%string) ]);
      (lit "metrics",
       SObj
         [ (lit "likes",
            arr [ ".social-counts-reactions__count";
                  ".feed-shared-social-action-bar__reaction-count";
                  "button[aria-label*=`reaction`] .visually-hidden" ]%string);
           (lit "comments",
            arr [ ".social-counts-comments .social-counts-comments__count";
                  "button[aria-label*=`comment`] .visually-hidden";
                  ".feed-shared-social-action-bar__comment-count" ]%string);
           (lit "shares",
            arr [ ".social-counts-shares .social-counts-shares__count";
                  "button[aria-label*=`repost`] .visually-hidden";
                  ".feed-shared-social-action-bar__repost-count" ]%string) ]);
      (lit "media",
       SObj
         [ (lit "images",
            arr [ ".feed-shared-image img";
                  ".feed-shared-mini-update-v2 img";
                  ".feed-shared-carousel__content img";
                  ".update-components-image img" ]%string);
           (lit "videos",
            arr [ ".feed-shared-video video";
                  ".feed-shared-mini-update-v2 video";
                  ".update-components-video video" ]%string);
           (lit "documents",
            arr [ ".feed-shared-document";
                  ".feed-shared-mini-update-v2__document";
                  ".update-components-document" ]%string) ]);
      (lit "timestamp",
       arr [ ".feed-shared-actor__sub-description .visually-hidden";
             ".feed-shared-actor__sub-description time";
             ".update-components-actor__sub-description time";
             "time[datetime]" ]%string);
      (lit "postUrl",
       arr [ ".feed-shared-control-menu__trigger";
             ".feed-shared-actor__container-link";
             "a[href*=`/posts/`]" ]%string) ].

Definition savedPostsSelectors : SelNode :=
  SObj
    [ (lit "container",
       arr [ ".saved-items"; ".my-items-saved";
             "[data-view-name=`saved-items`]" ]%string);
      (lit "posts",
       arr [ ".saved-item"; ".my-items-saved__item";
             ".saved-items__item" ]%string) ].

Definition navigationSelectors : SelNode :=
  SObj
    [ (lit "savedPostsPage",
       arr [ "a[href*=`/my-items/saved-posts/`]";
             "a[href*=`/saved/`]" ]%string);
      (lit "feedPage",
       arr [ ".feed-container"; ".scaffold-layout__main" ]%string) ].

Definition loadingSelectors : SelNode :=
  SObj
    [ (lit "spinner",
       arr [ ".feed-shared-update-v2__loader"; ".artdeco-spinner";
             ".loading-spinner" ]%string);
      (lit "loadMore",
       arr [ ".scaffold-finite-scroll__load-button";
             ".feed-shared-update-v2__load-more" ]%string) ].

(** The instance: its own data properties, by name. *)
Definition this : SelNode :=
  SObj
    [ (lit "postSelectors", postSelectors);
      (lit "contentSelectors", contentSelectors);
      (lit "savedPostsSelectors", savedPostsSelectors);
      (lit "navigationSelectors", navigationSelectors);
      (lit "loadingSelectors", loadingSelectors) ].

Fixpoint assoc (k : jsstring) (l : list (jsstring * SelNode))
  : option SelNode :=
  match l with
  | [] => None
  | (k', v) :: r => if str_eqb k k' then Some v else assoc k r
  end.

(** [node[key]] for the keys the callers use: a member of an object table.
    An array of selectors has no member under such a key. *)
Definition member (node : SelNode) (key : jsstring) : option SelNode :=
  match node with
  | SObj ms => assoc key ms
  | SArr _ => None
  end.

(** [s.split('.')] *)
Fixpoint split_dot (s : jsstring) : list jsstring :=
  match s with
  | [] => [[]]
  | c :: r =>
      if N.eqb c 46 then [] :: split_dot r
      else match split_dot r with
           | p :: ps => (c :: p) :: ps
           | [] => [[c]]
           end
  end.

(** [Array.isArray(x) ? x : [x]] *)
Definition as_array (node : SelNode) : list SelArg :=
  match node with
  | SArr l => map SelStr l
  | SObj _ => [SelObj]
  end.

(** The loop of [getAllSelectors] over the parts of a dotted subtype. *)
Fixpoint descend (current : option SelNode) (parts : list jsstring)
  : option SelNode :=
  match parts with
  | [] => current
  | part :: rest =>
      match current with
      | Some node =>
          match member node part with
          | Some next => descend (Some next) rest
          | None => None
          end
      | None => None
      end
  end.

Definition getAllSelectors (type : jsstring) (subtype : option jsstring)
  : list SelArg :=
  let fallback :=
    match member contentSelectors type with
    | Some node => as_array node
    | None =>
        match member this (type ++ lit "Selectors") with
        | Some node => as_array node
        | None => []
        end
    end in
  match subtype with
  | Some (c :: st) =>
      match descend (member contentSelectors type) (split_dot (c :: st)) with
      | Some current => as_array current
      | None => fallback
      end
  | _ => fallback
  end.

(** The loop of [findElement] and of the extractors: the first selector
    whose query yields an element. *)
Fixpoint first_match (container : Element) (selectors : list SelArg)
  : Exc (option Element) :=
  match selectors with
  | [] => Ok None
  | selector :: rest =>
      element <- el_querySelector container selector ;;
      match element with
      | Some e => Ok (Some e)
      | None => first_match container rest
      end
  end.

Definition findElement (container : Element) (type : jsstring)
           (subtype : option jsstring) : Exc (option Element) :=
  first_match container (getAllSelectors type subtype).

(** ToInt32 *)
Definition toInt32 (z : Z) : Z :=
  ((z + 2147483648) mod 4294967296 - 2147483648)%Z.

Definition hash_step (hash : Z) (char : N) : Z :=
  toInt32 (toInt32 (hash * 32) - hash + Z.of_N char).

Definition simpleHash (str : jsstring) : jsstring :=
  base36_of_N (Z.to_N (Z.abs (fold_left hash_step str 0%Z))).

(** [href.match(/\/posts\/([^/?]+)/)]: the first capture, if any. *)
Definition not_slash_or_query (c : N) : bool :=
  negb (N.eqb c 47 || N.eqb c 63).

Fixpoint take_while (p : N -> bool) (s : jsstring) : jsstring :=
  match s with
  | c :: r => if p c then c :: take_while p r else []
  | [] => []
  end.

Fixpoint match_posts_path (s : jsstring) : option jsstring :=
  let here :=
    if starts_with (lit "/posts/") s
    then match take_while not_slash_or_query (skipn 7 s) with
         | [] => None
         | capture => Some capture
         end
    else None in
  match here with
  | Some capture => Some capture
  | None =>
      match s with
      | [] => None
      | _ :: r => match_posts_path r
      end
  end.

(** [getPostId]: [null] is [Ok None]. *)
Definition getPostId (postElement : Element) : Exc (option jsstring) :=
  dataId <- getAttribute postElement (lit "data-id") ;;
  if truthy_str dataId then Ok dataId
  else
    urlElement <- findElement postElement (lit "content") (Some (lit "postUrl")) ;;
    let from_url :=
      match urlElement with
      | Some u =>
          match el_href u with
          | Some (c :: h) => match_posts_path (c :: h)
          | _ => None
          end
      | None => None
      end in
    match from_url with
    | Some id => Ok (Some id)
    | None =>
        textElement <- findElement postElement (lit "content") (Some (lit "text")) ;;
        match textElement with
        | Some t =>
            text <- textContent_trim t ;;
            Ok (Some (lit "post_" ++ simpleHash text))
        | None => Ok None
        end
    end.

End LinkedInSelectors.

(* ================================================================== *)
(** * content/post-extractor.js *)
(* ================================================================== *)

Module PostExtractor.

Record Settings : Type := mkSettings {
  extractImages_on : bool;
  extractMetrics_on : bool;
  extractComments_on : bool
}.

Definition default_settings : Settings := mkSettings true true false.

(** One reading of the clock and of the random source:
    [Date.now()] and [Math.random().toString(36).substr(2, 9)]. *)
Record Sample : Type := mkSample {
  date_now : Z;
  random36 : jsstring
}.

(** What [extractPost] reads from its host, in the order it reads it. *)
Record Host : Type := mkHost {
  id_sample : Sample;             (* inside generatePostId *)
  url_sample : Sample;            (* inside generatePostUrl *)
  location_href : option jsstring;(* window.location?.href *)
  new_Date : Z                    (* new Date() in parseRelativeTime, ms *)
}.

(** A timestamp string: the [datetime] attribute as found, or the ISO-8601
    rendering of an instant, kept as the instant in milliseconds. *)
Inductive timestamp : Type :=
| Datetime (attribute : jsstring)
| ISO (ms : Z).

Record Author : Type := mkAuthor {
  name : jsstring;
  title : jsstring;
  profileUrl : jsstring
}.

Record Metrics : Type := mkMetrics {
  likes : number;
  comments : number;
  shares : number
}.

Record PostData : Type := mkPostData {
  id : jsstring;
  url : jsstring;
  author : Author;
  content : jsstring;
  timestamp_of : option timestamp;
  metrics : option Metrics;
  images : option (list jsstring)
}.

Definition sels (l : list string) : list SelArg :=
  map (fun s => SelStr (LinkedInSelectors.sel s)) l.

(** The template string of the fallback identifier. *)
Definition fallback_id (s : Sample) : jsstring :=
  lit "post_" ++ decimal_of_Z (date_now s) ++ lit "_" ++ random36 s.

Definition generatePostId (s : Sample) (postElement : option Element)
  : jsstring :=
  match postElement with
  | None => fallback_id s
  | Some el =>
      match el_getAttribute el with
      | None => fallback_id s
      | Some getAttr =>
          let urn :=
            or_else (or_else (getAttr (lit "data-urn"))
                             (getAttr (lit "data-id")))
                    (getAttr (lit "data-activity-urn")) in
          match urn with
          | Some (c :: u) => c :: u
          | _ => fallback_id s
          end
      end
  end.

Definition generatePostUrl (h : Host) (postElement : option Element)
  : jsstring :=
  let id := generatePostId (url_sample h) postElement in
  if includes id (lit "urn:li:activity:")
  then lit "https://www.linkedin.com/feed/update/" ++ id
  else match location_href h with
       | Some (c :: u) => c :: u
       | _ => lit "https://www.linkedin.com/feed/"
       end.

(** The [for (const selector of selectors)] loops: [body] decides, for the
    element a selector found, whether to return ([Some]) or to go on. *)
Fixpoint for_selectors {A} (postElement : Element)
         (selectors : list SelArg) (body : Element -> Exc (option A))
         (default : A) : Exc A :=
  match selectors with
  | [] => Ok default
  | selector :: rest =>
      element <- el_querySelector postElement selector ;;
      match element with
      | Some e =>
          r <- body e ;;
          match r with
          | Some a => Ok a
          | None => for_selectors postElement rest body default
          end
      | None => for_selectors postElement rest body default
      end
  end.

Definition extractAuthorName (postElement : Element) : Exc jsstring :=
  for_selectors postElement
    (sels [ ".feed-shared-actor__name";
            ".update-components-actor__name";
            ".feed-shared-actor__title";
            "[data-control-name=`actor_name`]" ]%string)
    (fun element =>
       hiddenText <- el_querySelector element
                       (SelStr (lit ".visually-hidden")) ;;
       match hiddenText with
       | Some hidden => t <- textContent_trim hidden ;; Ok (Some t)
       | None => t <- textContent_trim element ;; Ok (Some t)
       end)
    (lit "Unknown").

(** [text.match(/\d+[mhd]/)] succeeds exactly when some digit is directly
    followed by one of [m], [h], [d]. *)
Definition is_mhd (c : N) : bool :=
  N.eqb c 109 || N.eqb c 104 || N.eqb c 100.

Fixpoint has_digits_mhd (s : jsstring) : bool :=
  match s with
  | c :: r =>
      (is_digit c && match r with c' :: _ => is_mhd c' | [] => false end)
      || has_digits_mhd r
  | [] => false
  end.

(** The three code units of the separator literal in [extractAuthorTitle],
    as the source file spells it. *)
Definition bullet_literal : jsstring := [226; 8364; 162]%N.

Definition extractAuthorTitle (postElement : Element) : Exc jsstring :=
  for_selectors postElement
    (sels [ ".feed-shared-actor__description";
            ".update-components-actor__description";
            ".feed-shared-actor__sub-description" ]%string)
    (fun element =>
       text <- textContent_trim element ;;
       if str_truthy text && negb (includes text bullet_literal)
          && negb (has_digits_mhd text) && negb (includes text (lit "ago"))
       then Ok (Some text) else Ok None)
    [].

Definition extractAuthorProfileUrl (postElement : Element) : Exc jsstring :=
  for_selectors postElement
    (sels [ ".feed-shared-actor__container-link";
            ".update-components-actor__container a";
            ".feed-shared-actor a[href*=`/in/`]";
            "a[href*=`linkedin.com/in/`]" ]%string)
    (fun element =>
       match el_href element with
       | Some (c :: h) => Ok (Some (c :: h))
       | _ => Ok None
       end)
    [].

Definition extractAuthor (postElement : Element) : Exc Author :=
  authorName <- extractAuthorName postElement ;;
  authorTitle <- extractAuthorTitle postElement ;;
  authorProfileUrl <- extractAuthorProfileUrl postElement ;;
  Ok (mkAuthor authorName authorTitle authorProfileUrl).

Definition cleanContent (text : option jsstring) : jsstring :=
  match text with
  | Some (c :: t) => replace_ws_runs false (trim (c :: t))
  | _ => []
  end.

Definition extractContent (postElement : Element) : Exc jsstring :=
  for_selectors postElement
    (sels [ ".feed-shared-text";
            ".update-components-text";
            ".feed-shared-update-v2__description";
            "[data-test-id=`main-feed-activity-card`] .break-words" ]%string)
    (fun element =>
       expandedContent <- el_querySelector element
                            (SelStr (lit ".feed-shared-inline-show-more-text")) ;;
       match expandedContent with
       | Some expanded => Ok (Some (cleanContent (el_textContent expanded)))
       | None => Ok (Some (cleanContent (el_textContent element)))
       end)
    [].

(** [new Date(ms).toISOString()]: a time value beyond the range of [Date]
    makes an invalid date, on which [toISOString] throws. *)
Definition toISOString (ms : Z) : Exc timestamp :=
  if (Z.abs ms <=? 8640000000000000)%Z then Ok (ISO ms) else Throw RangeError.

(** The second group of the pattern, [([mhdwy]|mo)] under the [i] flag, tried
    at the head of [s]: its alternatives in their order. *)
Definition is_mhdwy_i (c : N) : bool :=
  unit_is_letter_i 109 c || unit_is_letter_i 104 c || unit_is_letter_i 100 c
  || unit_is_letter_i 119 c || unit_is_letter_i 121 c.

Definition unit_group (s : jsstring) : option jsstring :=
  match s with
  | c :: r =>
      if is_mhdwy_i c then Some [c]
      else match r with
           | c' :: _ =>
               if unit_is_letter_i 109 c && unit_is_letter_i 111 c'
               then Some [c; c'] else None
           | [] => None
           end
  | [] => None
  end.

(** [(\d+)] is greedy: try [k] digits, then fewer. *)
Fixpoint backtrack (k : nat) (s : jsstring) : option (jsstring * jsstring) :=
  match k with
  | O => None
  | S k' =>
      match unit_group (skipn k s) with
      | Some u => Some (firstn k s, u)
      | None => backtrack k' s
      end
  end.

Definition match_here (s : jsstring) : option (jsstring * jsstring) :=
  backtrack (List.length (fst (span_digits s))) s.

(** [timeText.match(/(\d+)([mhdwy]|mo)/i)]: the two groups of the leftmost
    match. *)
Fixpoint match_relative (s : jsstring) : option (jsstring * jsstring) :=
  match match_here s with
  | Some m => Some m
  | None =>
      match s with
      | [] => None
      | _ :: r => match_relative r
      end
  end.

Definition parseRelativeTime (now : Z) (timeText : jsstring)
  : Exc timestamp :=
  match match_relative timeText with
  | Some (digits, letters) =>
      let value := digits_value digits in
      let unit := toLowerCase letters in
      if str_eqb unit (lit "m") then
        toISOString (now - value * 60 * 1000)
      else if str_eqb unit (lit "h") then
        toISOString (now - value * 60 * 60 * 1000)
      else if str_eqb unit (lit "d") then
        toISOString (now - value * 24 * 60 * 60 * 1000)
      else if str_eqb unit (lit "w") then
        toISOString (now - value * 7 * 24 * 60 * 60 * 1000)
      else if str_eqb unit (lit "mo") then
        toISOString (now - value * 30 * 24 * 60 * 60 * 1000)
      else if str_eqb unit (lit "y") then
        toISOString (now - value * 365 * 24 * 60 * 60 * 1000)
      else toISOString now
  | None => toISOString now
  end.

Definition extractTimestamp (now : Z) (postElement : Element)
  : Exc (option timestamp) :=
  for_selectors postElement
    (sels [ "time[datetime]";
            ".feed-shared-actor__sub-description time";
            ".update-components-actor__sub-description time";
            "[data-test-id=`main-feed-activity-card`] time" ]%string)
    (fun element =>
       datetime <- getAttribute element (lit "datetime") ;;
       match datetime with
       | Some (c :: d) => Ok (Some (Some (Datetime (c :: d))))
       | _ =>
           timeText <- textContent_trim element ;;
           t <- parseRelativeTime now timeText ;;
           Ok (Some (Some t))
       end)
    None.

(** [text.replace(/[^\d.,KMB]/gi, '')] *)
Definition metric_unit (c : N) : bool :=
  is_digit c || N.eqb c 46 || N.eqb c 44
  || unit_is_letter_i 107 c || unit_is_letter_i 109 c || unit_is_letter_i 98 c.

Definition is_dot_or_comma (c : N) : bool := N.eqb c 44 || N.eqb c 46.

Definition parseMetricNumber (text : jsstring) : number :=
  match text with
  | [] => num_of_Z 0
  | _ =>
      let cleanText := filter metric_unit text in
      if includes (toLowerCase cleanText) (lit "k") then
        Math_round (times (parseFloat cleanText) 1000)
      else if includes (toLowerCase cleanText) (lit "m") then
        Math_round (times (parseFloat cleanText) 1000000)
      else if includes (toLowerCase cleanText) (lit "b") then
        Math_round (times (parseFloat cleanText) 1000000000)
      else
        let num := parseInt10 (filter (fun c => negb (is_dot_or_comma c))
                                      cleanText) in
        if isNaN num then num_of_Z 0 else num
  end.

Definition metric (postElement : Element) (selectors : list SelArg)
  : Exc number :=
  for_selectors postElement selectors
    (fun element =>
       text <- textContent_trim element ;;
       Ok (Some (parseMetricNumber text)))
    (num_of_Z 0).

Definition extractLikes (postElement : Element) : Exc number :=
  metric postElement
    (sels [ ".social-counts-reactions__count";
            ".social-counts-reactions .social-counts-reactions__count";
            "[data-test-id=`social-actions-bar`] button[aria-label*=`like`]"
          ]%string).

Definition extractComments (postElement : Element) : Exc number :=
  metric postElement
    (sels [ ".social-counts-comments";
            "[data-test-id=`social-actions-bar`] button[aria-label*=`comment`]"
          ]%string).

Definition extractShares (postElement : Element) : Exc number :=
  metric postElement
    (sels [ ".social-counts-shares";
            "[data-test-id=`social-actions-bar`] button[aria-label*=`share`]"
          ]%string).

Definition extractMetrics (postElement : Element) : Exc Metrics :=
  l <- extractLikes postElement ;;
  c <- extractComments postElement ;;
  s <- extractShares postElement ;;
  Ok (mkMetrics l c s).

Definition keep_image (img : Element) : option jsstring :=
  match el_src img with
  | Some (c :: src) =>
      if negb (includes (c :: src) (lit "data:image"))
         && negb (includes (c :: src) (lit "spacer.gif"))
      then Some (c :: src) else None
  | _ => None
  end.

Fixpoint collect_images (imgs : list Element) : list jsstring :=
  match imgs with
  | [] => []
  | img :: rest =>
      match keep_image img with
      | Some src => src :: collect_images rest
      | None => collect_images rest
      end
  end.

Definition extractImages (postElement : Element) : Exc (list jsstring) :=
  imageElements <- el_querySelectorAll postElement (SelStr (lit "img[src]")) ;;
  Ok (collect_images imageElements).

(** The body of the [try] block of [extractPost]. *)
Definition extractPost_body (settings : Settings) (h : Host)
           (postElement : option Element) : Exc PostData :=
  match postElement with
  | None => Throw (Error "Post element is null or undefined")
  | Some el =>
      let id := generatePostId (id_sample h) postElement in
      let url := generatePostUrl h postElement in
      author <- extractAuthor el ;;
      content <- extractContent el ;;
      timestamp <- extractTimestamp (new_Date h) el ;;
      metrics <-
        (if extractMetrics_on settings
         then m <- extractMetrics el ;; Ok (Some m)
         else Ok None) ;;
      images <-
        (if extractImages_on settings
         then i <- extractImages el ;; Ok (Some i)
         else Ok None) ;;
      Ok (mkPostData id url author content timestamp metrics images)
  end.

(** [extractPost]: [null] is [None]. *)
Definition extractPost (settings : Settings) (h : Host)
           (postElement : option Element) : option PostData :=
  match extractPost_body settings h postElement with
  | Ok postData => Some postData
  | Throw _ => None
  end.

End PostExtractor.

(* ================================================================== *)
(** * utils/data-formatter.js *)
(* ================================================================== *)

Module DataFormatter.

(** ** Arithmetic of [calculateEngagementRate] *)

Definition num_add (x y : number) : number :=
  match x, y with
  | NaN, _ | _, NaN => NaN
  | Inf a, Inf b => if Bool.eqb a b then Inf a else NaN
  | Inf a, Fin _ | Fin _, Inf a => Inf a
  | Fin p, Fin q => Fin (p + q)
  end.

Definition num_gt0 (x : number) : bool :=
  match x with
  | Fin q => negb (Qle_bool q 0)
  | Inf negative => negb negative
  | NaN => false
  end.

(** [x / y] for [y > 0] *)
Definition num_div_pos (x y : number) : number :=
  match x, y with
  | NaN, _ | _, NaN => NaN
  | Inf _, Inf _ => NaN
  | Inf a, Fin _ => Inf a
  | Fin _, Inf _ => Fin 0
  | Fin p, Fin q => Fin (p / q)
  end.

(** ** The raw record handed to the formatter *)

Record RawAuthor : Type := mkRawAuthor {
  ra_name : option jsstring;
  ra_profile : option jsstring;
  ra_image : option jsstring;
  ra_title : option jsstring;
  ra_company : option jsstring
}.

(** [rawPostData.content]: absent, a string (what [formatContent] expects),
    or an object with a [text] member (what [determinePostType] reads). *)
Inductive RawContent : Type :=
| CAbsent
| CText (s : jsstring)
| CObject (text : option jsstring).

(** An entry of a media array: a URL string, or an object with a [url] and
    a label ([alt] for images, [title] otherwise). *)
Inductive RawItem : Type :=
| ItemUrl (u : jsstring)
| ItemObj (item_url : option jsstring) (item_label : option jsstring).

Record RawMedia : Type := mkRawMedia {
  rm_images : option (list RawItem);
  rm_videos : option (list RawItem);
  rm_documents : option (list RawItem)
}.

Record RawMetrics : Type := mkRawMetrics {
  rk_likes : scalar;
  rk_comments : scalar;
  rk_shares : scalar;
  rk_views : scalar;
  rk_reactions : option (list (jsstring * scalar))
}.

Record RawPost : Type := mkRawPost {
  raw_id : option jsstring;
  raw_url : option jsstring;
  raw_author : option RawAuthor;
  raw_content : RawContent;
  raw_metrics : option RawMetrics;
  raw_media : option RawMedia
}.

(** ** The formatted record

    [hashtags], [mentions], [timestamp], [extractedAt] and [platform] are not
    represented: their values come from the Unicode tables and the date
    facilities of the host, computing them cannot throw, and neither
    [validatePostData] nor [determinePostType] reads them. *)

Record AuthorData : Type := mkAuthorData {
  ad_name : option jsstring;
  ad_profile : jsstring;
  ad_image : jsstring;
  ad_title : option jsstring;
  ad_company : option jsstring
}.

Inductive Sentiment : Type := positive | negative | neutral.

Record ContentData : Type := mkContentData {
  cd_text : option jsstring;
  cd_wordCount : nat;
  cd_characterCount : nat;
  cd_hasLinks : option bool;
  cd_sentiment : option Sentiment
}.

Record MetricsData : Type := mkMetricsData {
  md_likes : number;
  md_comments : number;
  md_shares : number;
  md_views : number;
  md_reactions : option (list (jsstring * number));
  md_engagementRate : number
}.

(** A formatted media entry: its URL and its label ([alt] or [title]).
    The members copied through unchanged ([width], [height], [duration],
    [type]) and the thumbnail URL are not represented. *)
Record MediaItem : Type := mkMediaItem {
  mi_url : jsstring;
  mi_label : jsstring
}.

Record MediaData : Type := mkMediaData {
  images : list MediaItem;
  videos : list MediaItem;
  documents : list MediaItem;
  hasMedia : bool
}.

Inductive PostType : Type := text | image | carousel | video | document | poll.

(** The shape [validatePostData] is applied to.  [id], [author], [content]
    and [media] may be missing, as in any JavaScript object. *)
Record Post : Type := mkPost {
  p_id : option jsstring;
  p_url : jsstring;
  p_author : option AuthorData;
  p_content : option ContentData;
  p_metrics : option MetricsData;
  p_media : option MediaData;
  p_postType : PostType
}.

(** ** The formatting functions *)

Definition printable (c : N) : bool :=
  in_range 32 126 c || in_range 160 65535 c.

Definition is_crlf_tab (c : N) : bool :=
  N.eqb c 13 || N.eqb c 10 || N.eqb c 9.

Definition max_length : nat := N.to_nat 10000.

(** [sanitizeString] on a string. *)
Definition sanitizeString (str : jsstring) : jsstring :=
  match str with
  | [] => []
  | _ =>
      firstn max_length
        (filter printable
           (map (fun c => if is_crlf_tab c then 32%N else c)
              (replace_ws_runs false (trim str))))
  end.

(** [sanitizeString(x || fallback)] where [x] may be undefined. *)
Definition sanitize_or (x : option jsstring) (fallback : jsstring)
  : jsstring :=
  match x with
  | Some (c :: s) => sanitizeString (c :: s)
  | _ => sanitizeString fallback
  end.

(** [parseNumber] *)
Definition parseNumber (value : scalar) : number :=
  match value with
  | SNum n => n
  | _ =>
      if negb (truthy value) then num_of_Z 0
      else
        let str :=
          filter (fun c => negb (N.eqb c 44))
            (toLowerCase
               match value with
               | SStr s => s
               | SBool true => lit "true"
               | _ => []
               end) in
        if includes str (lit "k") then
          Math_round (times (parseFloat str) 1000)
        else if includes str (lit "m") then
          Math_round (times (parseFloat str) 1000000)
        else if includes str (lit "b") then
          Math_round (times (parseFloat str) 1000000000)
        else
          let num := parseInt10 str in
          if isNaN num then num_of_Z 0 else num
  end.

(** The pieces of [s.split(/\\s+/)] that are not empty. *)
Fixpoint words_from (cur : jsstring) (s : jsstring) : list jsstring :=
  match s with
  | [] => match cur with [] => [] | _ => [rev cur] end
  | c :: r =>
      if is_ws c
      then match cur with
           | [] => words_from [] r
           | _ => rev cur :: words_from [] r
           end
      else words_from (c :: cur) r
  end.

Definition words (s : jsstring) : list jsstring := words_from [] s.

Definition countWords (s : jsstring) : nat :=
  match s with
  | [] => O
  | _ => List.length (words (trim s))
  end.

(** A prefix test that ignores the case of ASCII letters, as the [i] flag
    does for a pattern of ASCII characters. *)
Fixpoint starts_with_ci (p s : jsstring) : bool :=
  match p, s with
  | [], _ => true
  | x :: p', y :: s' =>
      (if in_range 97 122 x then unit_is_letter_i x y else N.eqb x y)
      && starts_with_ci p' s'
  | _ :: _, [] => false
  end.

Definition nonspace_head (s : jsstring) : bool :=
  match s with
  | c :: _ => negb (is_ws c)
  | [] => false
  end.

(** [/(https?:\\/\\/[^\\s]+)/gi.test(s)] *)
Fixpoint hasLinks (s : jsstring) : bool :=
  (starts_with_ci (lit "http://") s && nonspace_head (skipn 7 s))
  || (starts_with_ci (lit "https://") s && nonspace_head (skipn 8 s))
  || match s with
     | [] => false
     | _ :: r => hasLinks r
     end.

Definition positiveWords : list jsstring :=
  map lit [ "great"; "excellent"; "amazing"; "wonderful"; "fantastic";
            "love"; "best"; "awesome"; "perfect"; "outstanding" ]%string.

Definition negativeWords : list jsstring :=
  map lit [ "bad"; "terrible"; "awful"; "hate"; "worst"; "horrible";
            "disappointing"; "failed"; "problem"; "issue" ]%string.

Definition count_in (lexicon : list jsstring) (ws : list jsstring) : nat :=
  List.length (filter (fun w => existsb (str_eqb w) lexicon) ws).

Definition analyzeSentiment (s : jsstring) : Sentiment :=
  match s with
  | [] => neutral
  | _ =>
      let ws := words (toLowerCase s) in
      let positiveCount := count_in positiveWords ws in
      let negativeCount := count_in negativeWords ws in
      if (negativeCount <? positiveCount)%nat then positive
      else if (positiveCount <? negativeCount)%nat then negative
      else neutral
  end.

Definition calculateEngagementRate (l c s v : number) : number :=
  let totalEngagement := num_add (num_add l c) s in
  if num_gt0 v then
    match Math_round (times (times (num_div_pos totalEngagement v) 100) 100) with
    | Fin q => Fin (q / 100)
    | other => other
    end
  else num_of_Z 0.

Definition formatReactions (reactions : option (list (jsstring * scalar)))
  : list (jsstring * number) :=
  match reactions with
  | Some rs => map (fun kv => (fst kv, parseNumber (snd kv))) rs
  | None => []
  end.

Definition formatMetrics (metrics : option RawMetrics) : MetricsData :=
  match metrics with
  | None =>
      mkMetricsData (num_of_Z 0) (num_of_Z 0) (num_of_Z 0) (num_of_Z 0)
                    None (num_of_Z 0)
  | Some m =>
      let l := parseNumber (rk_likes m) in
      let c := parseNumber (rk_comments m) in
      let s := parseNumber (rk_shares m) in
      let v := parseNumber (rk_views m) in
      mkMetricsData l c s v (Some (formatReactions (rk_reactions m)))
                    (calculateEngagementRate l c s v)
  end.

(** [x?.length > n], false when [x] is undefined *)
Definition length_gt (a : option (list RawItem)) (n : nat) : bool :=
  match a with
  | Some l => (n <? List.length l)%nat
  | None => false
  end.

Definition length_is (a : option (list RawItem)) (n : nat) : bool :=
  match a with
  | Some l => (List.length l =? n)%nat
  | None => false
  end.

(** [hasAnyMedia], as the truth value of what it returns. *)
Definition hasAnyMedia (media : option RawMedia) : bool :=
  match media with
  | None => false
  | Some m =>
      length_gt (rm_images m) 0 || length_gt (rm_videos m) 0
      || length_gt (rm_documents m) 0
  end.

(** [determinePostType]; [member f] is [postData.media?.f]. *)
Definition determinePostType (postData : RawPost) : PostType :=
  let member (f : RawMedia -> option (list RawItem)) :=
    match raw_media postData with
    | Some m => f m
    | None => None
    end in
  if length_gt (member rm_videos) 0 then video
  else if length_gt (member rm_images) 1 then carousel
  else if length_is (member rm_images) 1 then image
  else if length_gt (member rm_documents) 0 then document
  else
    match raw_content postData with
    | CObject (Some t) => if includes t (lit "poll") then poll else text
    | _ => text
    end.

Section WithHost.

(** Whether [new URL(u)] accepts [u]. *)
Variable valid_url : jsstring -> bool.

(** [formatUrl] *)
Definition formatUrl (url : option jsstring) : jsstring :=
  match url with
  | Some (c :: u) =>
      let url' :=
        if starts_with (lit "/") (c :: u)
        then lit "https://www.linkedin.com" ++ c :: u
        else c :: u in
      if valid_url url' then url' else []
  | _ => []
  end.

(** [formatAuthorData] *)
Definition formatAuthorData (authorData : option RawAuthor) : AuthorData :=
  match authorData with
  | None => mkAuthorData (Some (lit "Unknown")) [] [] None None
  | Some a =>
      mkAuthorData
        (Some (sanitize_or (ra_name a) (lit "Unknown")))
        (formatUrl (ra_profile a))
        (formatUrl (ra_image a))
        (Some (sanitize_or (ra_title a) []))
        (Some (sanitize_or (ra_company a) []))
  end.

(** [formatContent]; an object where a string is expected has no [trim]. *)
Definition formatContent (content : RawContent) : Exc ContentData :=
  match content with
  | CAbsent | CText [] => Ok (mkContentData (Some []) 0 0 None None)
  | CText s =>
      let cleanText := sanitizeString s in
      Ok (mkContentData (Some cleanText) (countWords cleanText)
            (List.length cleanText) (Some (hasLinks cleanText))
            (Some (analyzeSentiment cleanText)))
  | CObject _ => Throw TypeError
  end.

(** [formatImageArray], [formatVideoArray], [formatDocumentArray]: they
    differ in the word of the default label. *)
Fixpoint format_items (kind : string) (index : nat) (items : list RawItem)
  : list MediaItem :=
  match items with
  | [] => []
  | item :: rest =>
      let default_label :=
        lit kind ++ lit " " ++ decimal_of_N (N.of_nat (index + 1)) in
      let formatted :=
        match item with
        | ItemUrl u => mkMediaItem (formatUrl (Some u))
                         (sanitizeString default_label)
        | ItemObj u l => mkMediaItem (formatUrl u)
                           (sanitize_or l default_label)
        end in
      match mi_url formatted with
      | [] => format_items kind (S index) rest
      | _ => formatted :: format_items kind (S index) rest
      end
  end.

Definition format_array (kind : string) (a : option (list RawItem))
  : list MediaItem :=
  match a with
  | Some l => format_items kind 0 l
  | None => []
  end.

Definition formatMediaData (media : option RawMedia) : MediaData :=
  match media with
  | None => mkMediaData [] [] [] false
  | Some m =>
      mkMediaData (format_array "Image" (rm_images m))
                  (format_array "Video" (rm_videos m))
                  (format_array "Document" (rm_documents m))
                  (hasAnyMedia media)
  end.

(** [validatePostData] *)
Definition validatePostData (postData : Post) : Exc unit :=
  if negb (truthy_str (p_id postData)) then
    Throw (Error "Missing required field: id")
  else
    match p_author postData with
    | None => Throw (Error "Missing required field: author")
    | Some author =>
        match p_content postData with
        | None => Throw (Error "Missing required field: content")
        | Some content =>
            if negb (truthy_str (ad_name author)) then
              Throw (Error "Author name is required")
            else if truthy_str (cd_text content) then Ok tt
            else
              match p_media postData with
              | None => Throw TypeError
              | Some media =>
                  if hasMedia media then Ok tt
                  else Throw (Error "Post must have either text content or media")
              end
        end
    end.

(** The object literal built inside the [try] of [formatPostData];
    a raw record that is [null] or [undefined] is [None]. *)
Definition format_fields (rawPostData : option RawPost) : Exc Post :=
  match rawPostData with
  | None => Throw TypeError
  | Some raw =>
      content <- formatContent (raw_content raw) ;;
      Ok (mkPost (Some (sanitize_or (raw_id raw) []))
                 (formatUrl (raw_url raw))
                 (Some (formatAuthorData (raw_author raw)))
                 (Some content)
                 (Some (formatMetrics (raw_metrics raw)))
                 (Some (formatMediaData (raw_media raw)))
                 (determinePostType raw))
  end.

(** [formatPostData]: [null] is [None]. *)
Definition formatPostData (rawPostData : option RawPost) : option Post :=
  match format_fields rawPostData with
  | Throw _ => None
  | Ok formatted =>
      match validatePostData formatted with
      | Throw _ => None
      | Ok _ => Some formatted
      end
  end.

End WithHost.

End DataFormatter.

(* ================================================================== *)
(** * content/dom-scanner.js *)
(* ================================================================== *)

Module DOMScanner.

Import DataFormatter.

Record Progress : Type := mkProgress {
  current : Z;
  total : Z
}.

(** The fields of a scanner that a scan reads and writes. *)
Record Scanner : Type := mkScanner {
  isScanning : bool;
  scanProgress : Progress;
  extractedPosts : list Post
}.

(** The caller's options; [None] is a property that is not given. *)
Record Options : Type := mkOptions {
  o_maxPosts : option Z;
  o_includeImages : option bool;
  o_includeVideos : option bool;
  o_scrollToLoad : option bool;
  o_postTypes : option (list PostType);
  o_authorFilter : option jsstring
}.

(** [settings.scanningPreferences] *)
Record Preferences : Type := mkPreferences {
  maxPostsPerScan : option Z;
  pref_includeImages : option bool;
  pref_includeVideos : option bool
}.

Record ScanOptions : Type := mkScanOptions {
  maxPosts : Z;
  includeImages : bool;
  includeVideos : bool;
  scrollToLoad : bool;
  postTypes : option (list PostType);
  authorFilter : option jsstring
}.

(** [document.querySelectorAll] on one state of the page. *)
Definition Page : Type := SelArg -> list Element.

(** The collaborators and the host of one scanner.  A scan reads the page
    each time it looks for posts: [page_at k] is the page at its [k]-th
    look.  [stop_requested k] tells whether [stopScan()] is called while the
    scan is suspended in its [k]-th [await] of storage or of a delay.
    [lowerCase] is [String.prototype.toLowerCase] with the full tables of
    the host. *)
Record Env : Type := mkEnv {
  getSettings : Exc (option Preferences);
  page_at : nat -> Page;
  extractPostData : Element -> Exc (option Post);
  savePosts : list Post -> Exc unit;
  stop_requested : nat -> bool;
  lowerCase : jsstring -> jsstring
}.

Inductive Event : Type :=
| scanStarted (options : ScanOptions)
| scanProgress_event (progress : Progress) (extractedCount : nat)
| scanCompleted (posts : list Post)
| scanError (e : error)
| scanStopped (extractedCount : nat).

(** A scan under way: the scanner, the events dispatched so far (the most
    recent first), and how many times it has awaited and looked at the
    page. *)
Record Run : Type := mkRun {
  scanner : Scanner;
  events : list Event;
  awaits : nat;
  looks : nat
}.

Definition dispatch (e : Event) (r : Run) : Run :=
  mkRun (scanner r) (e :: events r) (awaits r) (looks r).

Definition set_scanner (s : Scanner) (r : Run) : Run :=
  mkRun s (events r) (awaits r) (looks r).

(** [stopScan] *)
Definition stopScan (r : Run) : Run :=
  let s := scanner r in
  if isScanning s then
    dispatch (scanStopped (List.length (extractedPosts s)))
      (set_scanner (mkScanner false (scanProgress s) (extractedPosts s)) r)
  else r.

(** An [await]: other handlers may run, of which [stopScan] is modelled. *)
Definition await (env : Env) (r : Run) : Run :=
  let r' := mkRun (scanner r) (events r) (S (awaits r)) (looks r) in
  if stop_requested env (awaits r) then stopScan r' else r'.

Definition key_in (e : Element) (l : list Element) : bool :=
  existsb (fun x => Nat.eqb (el_key x) (el_key e)) l.

Definition found (r : option Element) : bool :=
  match r with Some _ => true | None => false end.

(** [isValidPost] *)
Definition isValidPost (postElement : Element) : Exc bool :=
  hasAuthor <- LinkedInSelectors.findElement postElement
                 (lit "author") (Some (lit "name")) ;;
  hasText <- LinkedInSelectors.findElement postElement (lit "text") None ;;
  hasContent <-
    (if found hasText then Ok true
     else i <- LinkedInSelectors.findElement postElement
                 (lit "media") (Some (lit "images")) ;;
          Ok (found i)) ;;
  Ok (found hasAuthor && hasContent).

(** The inner [forEach] of [findAllPosts]. *)
Fixpoint add_posts (foundPosts : list Element) (posts : list Element)
  : Exc (list Element) :=
  match foundPosts with
  | [] => Ok posts
  | post :: rest =>
      if key_in post posts then add_posts rest posts
      else
        valid <- isValidPost post ;;
        add_posts rest (if valid then posts ++ [post] else posts)
  end.

(** The outer [forEach] of [findAllPosts]. *)
Fixpoint for_post_selectors (page : Page) (selectors : list SelArg)
         (posts : list Element) : Exc (list Element) :=
  match selectors with
  | [] => Ok posts
  | selector :: rest =>
      posts' <- add_posts (page selector) posts ;;
      for_post_selectors page rest posts'
  end.

Definition findAllPosts (page : Page) : Exc (list Element) :=
  for_post_selectors page
    (LinkedInSelectors.getAllSelectors (lit "post") None) [].

Definition postType_eqb (a b : PostType) : bool :=
  match a, b with
  | text, text | image, image | carousel, carousel
  | video, video | document, document | poll, poll => true
  | _, _ => false
  end.

Definition media_length (postData : Post)
           (member : MediaData -> list MediaItem) : Exc nat :=
  match p_media postData with
  | Some media => Ok (List.length (member media))
  | None => Throw TypeError
  end.

Definition author_name (postData : Post) : Exc jsstring :=
  match p_author postData with
  | Some a =>
      match ad_name a with
      | Some n => Ok n
      | None => Throw TypeError
      end
  | None => Throw TypeError
  end.

(** [shouldIncludePost] *)
Definition shouldIncludePost (env : Env) (postData : Post)
           (options : ScanOptions) : Exc bool :=
  has_unwanted_image <-
    (if includeImages options then Ok false
     else n <- media_length postData images ;; Ok (0 <? n)%nat) ;;
  if has_unwanted_image then Ok false
  else
    has_unwanted_video <-
      (if includeVideos options then Ok false
       else n <- media_length postData videos ;; Ok (0 <? n)%nat) ;;
    if has_unwanted_video then Ok false
    else if match postTypes options with
            | Some ts =>
                negb (existsb (postType_eqb (p_postType postData)) ts)
            | None => false
            end
    then Ok false
    else
      match authorFilter options with
      | Some (c :: f) =>
          n <- author_name postData ;;
          Ok (includes (lowerCase env n) (lowerCase env (c :: f)))
      | _ => Ok true
      end.

Definition push (postData : Post) (s : Scanner) : Scanner :=
  mkScanner (isScanning s) (scanProgress s) (extractedPosts s ++ [postData]).

Definition extractedCount (s : Scanner) : Z :=
  Z.of_nat (List.length (extractedPosts s)).

(** The [try] block of [processBatch]: the post to push, if any. *)
Definition extract_one (env : Env) (options : ScanOptions)
           (postElement : Element) : Exc (option Post) :=
  postData <- extractPostData env postElement ;;
  match postData with
  | Some pd =>
      include <- shouldIncludePost env pd options ;;
      Ok (if include then Some pd else None)
  | None => Ok None
  end.

(** [processBatch] *)
Fixpoint processBatch (env : Env) (options : ScanOptions)
         (postElements : list Element) (s : Scanner) : Scanner :=
  match postElements with
  | [] => s
  | postElement :: rest =>
      if negb (isScanning s) then s
      else
        match extract_one env options postElement with
        | Ok (Some pd) =>
            let s' := push pd s in
            if (maxPosts options <=? extractedCount s')%Z then s'
            else processBatch env options rest s'
        | Ok None | Throw _ => processBatch env options rest s
        end
  end.

(** [scanProgress.current = Math.min(extractedPosts.length, scanProgress.total)]
    followed by the dispatch of a progress event, which carries the progress
    as it stands at that moment. *)
Definition report (r : Run) : Run :=
  let s := scanner r in
  let p := mkProgress (Z.min (extractedCount s) (total (scanProgress s)))
                      (total (scanProgress s)) in
  dispatch (scanProgress_event p (List.length (extractedPosts s)))
    (set_scanner (mkScanner (isScanning s) p (extractedPosts s)) r).

Definition set_total (t : Z) (r : Run) : Run :=
  let s := scanner r in
  set_scanner (mkScanner (isScanning s)
                 (mkProgress (current (scanProgress s)) t)
                 (extractedPosts s)) r.

Definition looked (r : Run) : Run :=
  mkRun (scanner r) (events r) (awaits r) (S (looks r)).

Definition batchSize : nat := 5.

(** The [for] loop of [startScan] over the initial posts; [n] bounds its
    iterations and [i] is its index.  [processBatch] contains no [await] of
    its own, so no other handler runs while a batch is processed; the delay
    after the report is where the scan is suspended. *)
Fixpoint batches (env : Env) (options : ScanOptions)
         (initialPosts : list Element) (n i : nat) (r : Run) : Run :=
  match n with
  | O => r
  | S n' =>
      if (i <? List.length initialPosts)%nat
         && (extractedCount (scanner r) <? maxPosts options)%Z
      then
        let batch := firstn batchSize (skipn i initialPosts) in
        let r1 := set_scanner (processBatch env options batch (scanner r)) r in
        let r2 := report r1 in
        let r3 := await env r2 in
        batches env options initialPosts n' (i + batchSize) r3
      else r
  end.

(** How far a scan got: it completed its steps, it threw, or the bound on
    the number of iterations was reached while it was still looping. *)
Inductive Step : Type :=
| Done (r : Run)
| Failed (e : error) (r : Run)
| Unfinished (r : Run).

Definition maxScrollAttempts : nat := 5.

(** The [while] loop of [loadMorePosts]; [fuel] bounds its iterations. *)
Fixpoint loadMoreLoop (env : Env) (options : ScanOptions) (fuel : nat)
         (scrollAttempts lastPostCount : nat) (r : Run) : Step :=
  match fuel with
  | O => Unfinished r
  | S fuel' =>
      if (scrollAttempts <? maxScrollAttempts)%nat
         && (extractedCount (scanner r) <? maxPosts options)%Z
         && isScanning (scanner r)
      then
        let r1 := await env r in
        match findAllPosts (page_at env (looks r1)) with
        | Throw e => Failed e (looked r1)
        | Ok newPosts =>
            let r2 := looked r1 in
            match skipn lastPostCount newPosts with
            | (_ :: _) as unprocessedPosts =>
                let r3 := set_scanner
                            (processBatch env options unprocessedPosts
                               (scanner r2)) r2 in
                let r4 := set_total
                            (Z.min (Z.of_nat (List.length newPosts))
                                   (maxPosts options)) r3 in
                let r5 := report r4 in
                loadMoreLoop env options fuel' 0 (List.length newPosts) r5
            | [] =>
                loadMoreLoop env options fuel' (S scrollAttempts)
                  lastPostCount r2
            end
        end
      else Done r
  end.

Definition loadMorePosts (env : Env) (options : ScanOptions) (fuel : nat)
           (r : Run) : Step :=
  loadMoreLoop env options fuel 0
    (List.length (extractedPosts (scanner r))) r.

Definition or_default (x : option bool) (d : bool) : bool :=
  match x with Some b => b | None => d end.

(** The [scanOptions] object of [startScan], after the spread of the
    caller's options over it. *)
Definition mergeOptions (options : Options) (prefs : Preferences)
  : ScanOptions :=
  mkScanOptions
    (match o_maxPosts options with
     | Some m => m
     | None =>
         match maxPostsPerScan prefs with
         | Some m => if (m =? 0)%Z then 100%Z else m
         | None => 100%Z
         end
     end)
    (match o_includeImages options with
     | Some b => b
     | None => or_default (pref_includeImages prefs) false
     end)
    (match o_includeVideos options with
     | Some b => b
     | None => or_default (pref_includeVideos prefs) false
     end)
    (or_default (o_scrollToLoad options) true)
    (o_postTypes options)
    (o_authorFilter options).

(** The [try] block of [startScan], from the scanner it has just marked as
    scanning. *)
Definition scan (env : Env) (options : Options) (fuel : nat) (r : Run)
  : Step :=
  let settings := getSettings env in
  let r0 := await env r in
  match settings with
  | Throw e => Failed e r0
  | Ok None => Failed TypeError r0
  | Ok (Some prefs) =>
      let scanOptions := mergeOptions options prefs in
      let r1 := dispatch (scanStarted scanOptions) r0 in
      match findAllPosts (page_at env (looks r1)) with
      | Throw e => Failed e r1
      | Ok initialPosts =>
          let r2 := set_total
                      (Z.min (Z.of_nat (List.length initialPosts))
                             (maxPosts scanOptions)) (looked r1) in
          let r3 := batches env scanOptions initialPosts
                      (List.length initialPosts) 0 r2 in
          let more :=
            if scrollToLoad scanOptions
               && (extractedCount (scanner r3) <? maxPosts scanOptions)%Z
            then loadMorePosts env scanOptions fuel r3
            else Done r3 in
          match more with
          | Done r4 =>
              let saved := savePosts env (extractedPosts (scanner r4)) in
              let r5 := await env r4 in
              match saved with
              | Throw e => Failed e r5
              | Ok _ =>
                  Done (dispatch
                          (scanCompleted (extractedPosts (scanner r5))) r5)
              end
          | other => other
          end
      end
  end.

(** How a call of [startScan] ends. *)
Inductive Outcome : Type :=
| Resolved (posts : list Post)
| Rejected (e : error)
| Pending.

Definition not_scanning (r : Run) : Run :=
  let s := scanner r in
  set_scanner (mkScanner false (scanProgress s) (extractedPosts s)) r.

(** [startScan]: the outcome, the scanner as the call leaves it, and the
    events it dispatched. *)
Definition startScan (env : Env) (options : Options) (fuel : nat)
           (s : Scanner) : Outcome * Run :=
  if isScanning s then
    (Rejected (Error "Scan already in progress"), mkRun s [] 0 0)
  else
    let started := mkRun (mkScanner true (scanProgress s) []) [] 0 0 in
    match scan env options fuel started with
    | Done r => (Resolved (extractedPosts (scanner r)), not_scanning r)
    | Failed e r => (Rejected e, not_scanning (dispatch (scanError e) r))
    | Unfinished r => (Pending, r)
    end.


End DOMScanner.

(* ================================================================== *)
(** * The Storage class (second part of utils/linkedin-selectors.js) *)
(* ================================================================== *)

Module Storage.

Import DataFormatter DOMScanner.

(** The [storageType] argument of the generic methods: the string local,
    the string sync, or a value that is neither, such as the object
    [{ local: true }] that three of the methods pass. *)
Inductive StorageType : Type :=
| type_local
| type_sync
| type_object.

(** A settings object: its members with scalar values, by name, and its
    [scanningPreferences] member. *)
Record Settings : Type := mkSettings {
  flat : jsstring -> option scalar;
  scanningPreferences : option Preferences
}.

(** An entry of the export history: the members of the caller's object and
    the two members that [addExportHistory] sets. *)
Record ExportEntry : Type := mkExportEntry {
  exportInfo : list (jsstring * scalar);
  entry_timestamp : PostExtractor.timestamp;
  entry_id : Z
}.

(** The object under the key postsCache; no code of the repository writes
    it, so its member may be missing. *)
Record Cache : Type := mkCache {
  cache_extractedPosts : option (list Post)
}.

(** One area of chrome.storage.  Under each key that the class uses it holds
    nothing or a value of the shape that the class writes there.  An area
    that does not accept calls rejects every one of them (quota, a context
    that is gone). *)
Record Area : Type := mkArea {
  item_settings : option Settings;
  item_posts : option (list Post);
  item_postsCache : option Cache;
  item_exportHistory : option (list ExportEntry);
  accepts : bool
}.

Record Store : Type := mkStore {
  local_area : Area;
  sync_area : Area
}.

(** A key, as the way to read and to write its item in an area. *)
Record Key (A : Type) : Type := mkKey {
  read : Area -> option A;
  write : option A -> Area -> Area
}.

Arguments mkKey {A}.
Arguments read {A}.
Arguments write {A}.

Definition key_settings : Key Settings :=
  mkKey item_settings
        (fun v a => mkArea v (item_posts a) (item_postsCache a)
                           (item_exportHistory a) (accepts a)).

Definition key_posts : Key (list Post) :=
  mkKey item_posts
        (fun v a => mkArea (item_settings a) v (item_postsCache a)
                           (item_exportHistory a) (accepts a)).

Definition key_postsCache : Key Cache :=
  mkKey item_postsCache
        (fun v a => mkArea (item_settings a) (item_posts a) v
                           (item_exportHistory a) (accepts a)).

Definition key_exportHistory : Key (list ExportEntry) :=
  mkKey item_exportHistory
        (fun v a => mkArea (item_settings a) (item_posts a)
                           (item_postsCache a) v (accepts a)).

Definition storage_error : error := Error "storage call rejected".

(** [storageType === 'local'] *)
Definition is_local (t : StorageType) : bool :=
  match t with type_local => true | _ => false end.

(** [storageType === 'local' ? this.storage : this.syncStorage] *)
Definition area_of (st : Store) (t : StorageType) : Area :=
  if is_local t then local_area st else sync_area st.

Definition with_area (st : Store) (t : StorageType) (a : Area) : Store :=
  if is_local t then mkStore a (sync_area st) else mkStore (local_area st) a.

(** [get(key, defaultValue, storageType)] with one key; [None] is null. *)
Definition get {A} (st : Store) (key : Key A) (defaultValue : option A)
           (t : StorageType) : Exc (option A) :=
  let storage := area_of st t in
  if accepts storage then
    Ok (match read key storage with
        | Some v => Some v
        | None => defaultValue
        end)
  else Throw storage_error.

(** [set(key, value, storageType)]: the store afterwards. *)
Definition set {A} (st : Store) (key : Key A) (value : A)
           (t : StorageType) : Exc Store :=
  let storage := area_of st t in
  if accepts storage then Ok (with_area st t (write key (Some value) storage))
  else Throw storage_error.

(** [remove(key, storageType)]: its result and the store afterwards. *)
Definition remove {A} (st : Store) (key : Key A) (t : StorageType)
  : bool * Store :=
  let storage := area_of st t in
  if accepts storage then (true, with_area st t (write key None storage))
  else (false, st).

Fixpoint lookup (k : jsstring) (l : list (jsstring * scalar))
  : option scalar :=
  match l with
  | [] => None
  | (k', v) :: r => if str_eqb k k' then Some v else lookup k r
  end.

Definition default_members : list (jsstring * scalar) :=
  [ (lit "autoScan", SBool false);
    (lit "scanInterval", SNum (num_of_Z 5));
    (lit "extractImages", SBool true);
    (lit "extractMetrics", SBool true);
    (lit "extractComments", SBool false);
    (lit "spreadsheetUrl", SStr []);
    (lit "sheetName", SStr (lit "LinkedIn Posts"));
    (lit "batchSize", SNum (num_of_Z 50));
    (lit "autoExport", SBool false);
    (lit "googleAuth", SNull) ].

(** The [defaultSettings] literal of [saveSettings] and of [getSettings]. *)
Definition defaultSettings : Settings :=
  mkSettings (fun k => lookup k default_members) None.

(** [{ ...defaults, ...settings }] *)
Definition spread (defaults settings : Settings) : Settings :=
  mkSettings
    (fun k => match flat settings k with
              | Some v => Some v
              | None => flat defaults k
              end)
    (match scanningPreferences settings with
     | Some p => Some p
     | None => scanningPreferences defaults
     end).

Definition saveSettings (st : Store) (settings : Settings) : Exc Store :=
  set st key_settings (spread defaultSettings settings) type_sync.

(** [getSettings]: what it returns and the store afterwards. *)
Definition getSettings (st : Store) : Exc (Settings * Store) :=
  settings <- get st key_settings None type_sync ;;
  match settings with
  | None =>
      st' <- saveSettings st defaultSettings ;;
      Ok (defaultSettings, st')
  | Some settings => Ok (settings, st)
  end.

Definition savePosts (st : Store) (posts : list Post) : Exc Store :=
  set st key_posts posts type_local.

Definition getPosts (st : Store) : Exc (option (list Post)) :=
  get st key_posts (Some []) type_local.

(** [getCachedPosts]: [None] is undefined, the member of a cache object
    that has none. *)
Definition getCachedPosts (st : Store) : Exc (option (list Post)) :=
  cache <- get st key_postsCache None type_object ;;
  match cache with
  | Some cache => Ok (cache_extractedPosts cache)
  | None => Ok (Some [])
  end.

Definition same_id (a b : option jsstring) : bool :=
  match a, b with
  | None, None => true
  | Some x, Some y => str_eqb x y
  | _, _ => false
  end.

(** [existingPost.id === post.id || existingPost.url === post.url] *)
Definition duplicates (post existingPost : Post) : bool :=
  same_id (p_id existingPost) (p_id post)
  || str_eqb (p_url existingPost) (p_url post).

Definition addPost (st : Store) (post : Post) : Exc Store :=
  existingPosts <- getPosts st ;;
  match existingPosts with
  | None => Throw TypeError
  | Some existingPosts =>
      let isDuplicate := existsb (duplicates post) existingPosts in
      if negb isDuplicate
      then set st key_posts (existingPosts ++ [post]) type_local
      else set st key_posts existingPosts type_local
  end.

Definition clearPosts (st : Store) : bool * Store :=
  remove st key_posts type_local.

Definition historyLimit : nat := 50.

(** [addExportHistory]; [now_iso] and [now] are its two readings of the
    clock. *)
Definition addExportHistory (st : Store) (info : list (jsstring * scalar))
           (now_iso : PostExtractor.timestamp) (now : Z) : Exc Store :=
  history <- get st key_exportHistory (Some []) type_object ;;
  match history with
  | None => Throw TypeError
  | Some history =>
      let history := mkExportEntry info now_iso now :: history in
      let history :=
        if (historyLimit <? List.length history)%nat
        then firstn historyLimit history else history in
      set st key_exportHistory history type_object
  end.

Definition getExportHistory (st : Store)
  : Exc (option (list ExportEntry)) :=
  get st key_exportHistory (Some []) type_object.

End Storage.

(* ================================================================== *)
(** * The scanner over the storage class *)
(* ================================================================== *)

Module Wiring.

Import DataFormatter DOMScanner.

(** Whether [startScan] reads [settings.scanningPreferences]: it does for
    each of the three options that the caller leaves out, and for a
    [maxPosts] that is falsy. *)
Definition reads_preferences (options : Options) : bool :=
  match o_maxPosts options, o_includeImages options,
        o_includeVideos options with
  | Some m, Some _, Some _ => (m =? 0)%Z
  | _, _, _ => true
  end.

(** What [startScan] gets out of [settings.scanningPreferences], which is
    what [getSettings] of the scanner's [Env] stands for: [None] is the
    TypeError of reading a member of a [scanningPreferences] that the settings
    do not have.  When the scan reads none of its members, preferences that
    are absent play no part: empty ones stand for them. *)
Definition preferences_read (options : Options) (s : Storage.Settings)
  : option Preferences :=
  match Storage.scanningPreferences s with
  | Some prefs => Some prefs
  | None => if reads_preferences options then None
            else Some (mkPreferences None None None)
  end.

(** The store once [getSettings] has returned. *)
Definition settled (st : Storage.Store) : Storage.Store :=
  match Storage.getSettings st with
  | Ok (_, st') => st'
  | Throw _ => st
  end.

(** The scanner's collaborators when its storage is this class over [st];
    the page, the extractor and the host are those of [base]. *)
Definition over_storage (st : Storage.Store) (options : Options)
           (base : Env) : Env :=
  mkEnv (r <- Storage.getSettings st ;;
         Ok (preferences_read options (fst r)))
        (page_at base)
        (extractPostData base)
        (fun posts => _ <- Storage.savePosts (settled st) posts ;; Ok tt)
        (stop_requested base)
        (lowerCase base).

End Wiring.

(* ================================================================== *)
(** * Vocabulary of the properties, and concrete pages *)
(* ================================================================== *)

Module Spec.

Import DataFormatter.

(** A DOM element rejects an argument of [querySelector] that is not a
    selector: the object is converted to the string [[object Object]], which
    the selector grammar does not accept. *)
Definition rejects_objects (el : Element) : Prop :=
  el_querySelector el SelObj = Throw SyntaxError.

(** The platform-native identifier that [generatePostId] looks for. *)
Definition native_identifier (getAttr : jsstring -> option jsstring)
  : option jsstring :=
  or_else (or_else (getAttr (lit "data-urn")) (getAttr (lit "data-id")))
          (getAttr (lit "data-activity-urn")).

(** The unit table of the relative-time labels, in milliseconds. *)
Definition minute : Z := 60 * 1000.
Definition hour : Z := 60 * minute.
Definition day : Z := 24 * hour.

(** The post-type precedence in the words of the design document. *)
Definition count (a : option (list RawItem)) : nat :=
  match a with Some l => List.length l | None => 0 end.

Definition media_member (postData : RawPost)
           (f : RawMedia -> option (list RawItem)) : option (list RawItem) :=
  match raw_media postData with Some m => f m | None => None end.

Definition content_text (postData : RawPost) : option jsstring :=
  match raw_content postData with
  | CObject t => t
  | _ => None
  end.

Definition contains_poll (t : option jsstring) : bool :=
  match t with
  | Some s => includes s (lit "poll")
  | None => false
  end.

Definition postType_by_precedence (postData : RawPost) : PostType :=
  if (0 <? count (media_member postData rm_videos))%nat then video
  else if (1 <? count (media_member postData rm_images))%nat then carousel
  else if (count (media_member postData rm_images) =? 1)%nat then image
  else if (0 <? count (media_member postData rm_documents))%nat then document
  else if contains_poll (content_text postData) then poll
  else text.

(** When validation is documented to fail. *)
Definition media_present (p : Post) : bool :=
  match p_media p with
  | Some m => hasMedia m
  | None => false
  end.

Definition must_fail (p : Post) : Prop :=
  truthy_str (p_id p) = false
  \/ p_author p = None
  \/ p_content p = None
  \/ (exists a, p_author p = Some a /\ truthy_str (ad_name a) = false)
  \/ (exists c, p_content p = Some c /\ truthy_str (cd_text c) = false
                /\ media_present p = false).

(** Strings on which [sanitizeString] has nothing to remove or to cut. *)
Definition clean_unit (c : N) : bool := is_ws c || printable c.

Definition fits (s : jsstring) : Prop :=
  (List.length (replace_ws_runs false (trim s)) <= max_length)%nat.

End Spec.

(** Progress reports of a scan and the invariants of its two loops. *)
Module ProgressInvariants.

Import DataFormatter DOMScanner.










Definition run_of (st : Step) : Run :=
  match st with Done r | Failed _ r | Unfinished r => r end.

End ProgressInvariants.

Module Fixtures.

Import DataFormatter DOMScanner PostExtractor.

Definition no_attributes : option (jsstring -> option jsstring) :=
  Some (fun _ => None).

(** An element without descendants. *)
Definition leaf (key : nat) (textContent : jsstring) : Element :=
  mkElement key no_attributes (Some textContent) None None
    (fun _ => Ok None) (fun _ => Ok []).

(** An element whose only descendant answers to one selector. *)
Definition parent_of (key : nat) (selector : jsstring) (child : Element)
  : Element :=
  mkElement key no_attributes (Some []) None None
    (fun s => if selarg_eqb s (SelStr selector) then Ok (Some child)
              else Ok None)
    (fun _ => Ok []).

(** A post with a data-urn attribute. *)
Definition with_urn (key : nat) (urn : jsstring) : Element :=
  mkElement key
    (Some (fun n => if str_eqb n (lit "data-urn") then Some urn else None))
    (Some []) None None (fun _ => Ok None) (fun _ => Ok []).

(** A post with a data-id attribute. *)
Definition with_data_id (key : nat) (v : jsstring) : Element :=
  mkElement key
    (Some (fun n => if str_eqb n (lit "data-id") then Some v else None))
    (Some []) None None (fun _ => Ok None) (fun _ => Ok []).

(** The test double of the unit tests: an object with a [querySelector]
    that throws, and nothing else. *)
Definition mockPostWithError : Element :=
  mkElement 0 None None None None
    (fun _ => Throw (Error "DOM error")) (fun _ => Throw TypeError).

(** A post whose author element is present and empty. *)
Definition post_with_empty_author : Element :=
  parent_of 1 (lit ".feed-shared-actor__name") (leaf 2 []).

Definition host0 : Host :=
  mkHost (mkSample 1700000000000 (lit "k3j9x0a1b"))
         (mkSample 1700000000001 (lit "z8y7w6v5u"))
         (Some (lit "https://www.linkedin.com/feed/"))
         1700000000002.

(** A raw record as the extractor could hand it over, without identifier. *)
Definition raw_without_id : RawPost :=
  mkRawPost None (Some (lit "https://www.linkedin.com/feed/"))
    (Some (mkRawAuthor (Some (lit "John Doe")) None None None None))
    (CText (lit "This is a test post content."))
    None None.

Definition accept_all (u : jsstring) : bool := true.

(** A post element in which every query finds something. *)
Definition simple_post (key : nat) : Element :=
  mkElement key no_attributes (Some []) None None
    (fun _ => Ok (Some (leaf 100 []))) (fun _ => Ok []).

(** A page whose posts answer to the second post selector. *)
Definition page_of (posts : list Element) : Page :=
  fun s => if selarg_eqb s (SelStr (lit ".feed-shared-update-v2"))
           then posts else [].

Definition a_post : Post :=
  mkPost (Some (lit "urn:li:activity:1"))
         (lit "https://www.linkedin.com/feed/")
         (Some (mkAuthorData (Some (lit "John Doe")) [] [] None None))
         (Some (mkContentData (Some (lit "Hello")) 1 5 None None))
         None
         (Some (mkMediaData [] [] [] false))
         text.

Definition three_posts : list Element :=
  [simple_post 1; simple_post 2; simple_post 3].

(** Storage, extractor and page of a scan: only the post of key 1 yields a
    record, and nobody stops the scan. *)
Definition env_with (pages : nat -> Page) : Env :=
  mkEnv (Ok (Some (mkPreferences (Some 100%Z) (Some true) (Some true))))
        pages
        (fun el => Ok (if Nat.eqb (el_key el) 1 then Some a_post else None))
        (fun _ => Ok tt)
        (fun _ => false)
        toLowerCase.

(** The page shows three posts at first and two of them afterwards. *)
Definition shrinking_env : Env :=
  env_with (fun k => match k with
                     | O => page_of three_posts
                     | S _ => page_of [simple_post 1; simple_post 2]
                     end).

(** The page keeps showing the same three posts. *)
Definition steady_env : Env := env_with (fun _ => page_of three_posts).

Definition no_options : Options := mkOptions None None None None None None.

Definition idle : Scanner := mkScanner false (mkProgress 0 0) [].


End Fixtures.

(* ================================================================== *)
(** * Further vocabulary and concrete cases *)
(* ================================================================== *)

Module Terms.

Import PostExtractor DataFormatter DOMScanner Storage.

(** The origin that [formatUrl] puts before a root-relative path. *)
Definition origin : jsstring := lit "https://www.linkedin.com".

Definition finite (x : number) : Prop := exists q, x = Fin q.

(** A views count that [parseNumber] reads as 0. *)
Definition no_views (v : scalar) : Prop :=
  v = SUndefined \/ v = SNull \/ v = SStr [] \/ v = SBool false.

(** The author name of a formatted record. *)
Definition formatted_name (a : option RawAuthor) : jsstring :=
  match a with
  | None => lit "Unknown"
  | Some a => sanitize_or (ra_name a) (lit "Unknown")
  end.

(** The raw content as a string, when [formatContent] accepts it. *)
Definition content_string (c : RawContent) : option jsstring :=
  match c with
  | CAbsent => Some []
  | CText s => Some s
  | CObject _ => None
  end.



Definition keys (l : list Element) : list nat := map el_key l.

(** What holds of the list that [findAllPosts] accumulates. *)
Definition discovered (page : Page) (sels : list SelArg)
           (posts : list Element) : Prop :=
  NoDup (keys posts)
  /\ forall p, In p posts ->
               isValidPost p = Ok true
               /\ exists s, In s sels /\ In p (page s).

(** The posts that the elements of a batch yield, in the order of the
    batch: an element whose extraction throws, returns null or is filtered
    out yields none. *)
Definition yield_of (env : Env) (o : ScanOptions) (l : list Element)
  : list Post :=
  flat_map (fun el => match extract_one env o el with
                      | Ok (Some pd) => [pd]
                      | _ => []
                      end) l.

(** How many posts a batch may still push: at least one, since the limit is
    only tested after a push. *)
Definition room (o : ScanOptions) (s : Scanner) : nat :=
  Z.to_nat (Z.max 1 (maxPosts o - extractedCount s)).

(** Where a post of the result comes from. *)
Definition from_the_page (env : Env) (o : ScanOptions) (pd : Post) : Prop :=
  exists k posts el,
    findAllPosts (page_at env k) = Ok posts
    /\ In el posts
    /\ extract_one env o el = Ok (Some pd).

(** Invariant of a scan: the limit is respected and every post comes from
    the page. *)
Definition kept (env : Env) (o : ScanOptions) (r : Run) : Prop :=
  (extractedCount (scanner r) <= Z.max 0 (maxPosts o))%Z
  /\ Forall (from_the_page env o) (extractedPosts (scanner r)).

Definition finds_nothing (container : Element) (s : SelArg) : Prop :=
  el_querySelector container s = Ok None.

(** The polynomial in 31 of the code units of a string, the first unit
    with the highest power. *)
Definition poly31 (str : jsstring) : Z :=
  fold_left (fun h c => (31 * h + Z.of_N c)%Z) str 0%Z.

(** No two posts of the list are duplicates of each other, in the sense of
    [addPost]. *)
Fixpoint distinct (l : list Post) : Prop :=
  match l with
  | [] => True
  | p :: r => existsb (duplicates p) r = false /\ distinct r
  end.

(** A sequence of calls of [addExportHistory], the first call first; each
    entry stands for the call that makes it. *)
Fixpoint add_all (st : Store) (calls : list ExportEntry) : Exc Store :=
  match calls with
  | [] => Ok st
  | c :: rest =>
      st' <- addExportHistory st (exportInfo c) (entry_timestamp c)
               (entry_id c) ;;
      add_all st' rest
  end.

End Terms.

Module Cases.

Import DataFormatter DOMScanner Storage Fixtures.

(** The scan of [steady_env], stopped during its first wait. *)
Definition stopped_at_once : Env :=
  mkEnv (DOMScanner.getSettings steady_env) (page_at steady_env)
        (extractPostData steady_env) (DOMScanner.savePosts steady_env)
        (fun k => Nat.eqb k 0) toLowerCase.

(** Text posts only, of authors whose name holds john. *)
Definition only_text_by_john : ScanOptions :=
  mkScanOptions 100 false false true (Some [text]) (Some (lit "john")).

(** A raw record whose text speaks of a poll. *)
Definition raw_about_a_poll : RawPost :=
  mkRawPost (Some (lit "urn:li:activity:7"))
    (Some (lit "https://www.linkedin.com/feed/"))
    (Some (mkRawAuthor (Some (lit "John Doe")) None None None None))
    (CText (lit "Vote in my poll"))
    None None.

(** An image element. *)
Definition img (key : nat) (src : jsstring) : Element :=
  mkElement key no_attributes (Some []) None (Some src)
    (fun _ => Ok None) (fun _ => Ok []).

(** A post with a picture, an inline image and the spacer asset. *)
Definition post_with_images : Element :=
  mkElement 1 no_attributes (Some []) None None (fun _ => Ok None)
    (fun s => if selarg_eqb s (SelStr (lit "img[src]"))
              then Ok [img 2 (lit "https://media.licdn.com/a.jpg");
                       img 3 (lit "data:image/gif;base64,R0lGOD");
                       img 4 (lit "https://static.licdn.com/spacer.gif")]
              else Ok []).

Definition empty_area : Area := mkArea None None None None true.

Definition empty_store : Store := mkStore empty_area empty_area.

Definition two_exports : list ExportEntry :=
  [mkExportEntry [] (PostExtractor.ISO 1) 1;
   mkExportEntry [] (PostExtractor.ISO 2) 2].

(** A store whose settings carry the scanning preferences. *)
Definition store_with_preferences : Store :=
  mkStore empty_area
    (mkArea (Some (mkSettings (fun _ => None)
               (Some (mkPreferences (Some 100%Z) (Some true) (Some true)))))
            None None None true).

(** A caller's settings: one member that overrides a default, and one of
    its own. *)
Definition custom_settings : Settings :=
  mkSettings (fun k => lookup k [(lit "batchSize", SNum (num_of_Z 10));
                                 (lit "theme", SStr (lit "dark"))])
             None.

End Cases.

(* ================================================================== *)
(** * Properties *)
(* ================================================================== *)

Unset Implicit Arguments.

(** ** Facts about trimming and white-space runs *)

Section StringFacts.

Lemma trim_start_length (s : jsstring) :
  (List.length (trim_start s) <= List.length s)%nat.
Proof.
  induction s as [|c r IH]; simpl; [lia|].
  destruct (is_ws c); simpl; lia.
Qed.

Lemma trim_start_fixed_head (c : N) (r : jsstring) :
  trim_start (c :: r) = c :: r -> is_ws c = false.
Proof.
  simpl. destruct (is_ws c); [|reflexivity].
  intros H. pose proof (trim_start_length r) as L.
  rewrite H in L. simpl in L. lia.
Qed.

Lemma trim_end_cons_nonws (c : N) (r : jsstring) :
  is_ws c = false -> trim_end (c :: r) = c :: trim_end r.
Proof.
  intros H. simpl. rewrite H. destruct (trim_end r); reflexivity.
Qed.

Lemma trim_end_nil_iff (s : jsstring) :
  trim_end s = [] <-> forallb is_ws s = true.
Proof.
  induction s as [|c r IH]; simpl; [tauto|].
  destruct (trim_end r) as [|x r'].
  - destruct (is_ws c); simpl.
    + tauto.
    + split; discriminate.
  - split; [discriminate|].
    rewrite andb_true_iff. intros [_ H]. apply IH in H. discriminate.
Qed.

Lemma collapse_true_nil_iff (s : jsstring) :
  replace_ws_runs true s = [] <-> forallb is_ws s = true.
Proof.
  induction s as [|c r IH]; simpl; [tauto|].
  destruct (is_ws c); simpl; [exact IH|].
  split; discriminate.
Qed.

Lemma trim_end_fixed_tail (c : N) (r : jsstring) :
  trim_end (c :: r) = c :: r ->
  trim_end r = r /\ (is_ws c = true -> r <> []).
Proof.
  simpl. destruct (trim_end r) as [|x r'] eqn:E.
  - destruct (is_ws c); [discriminate|].
    intros H. inversion H. split; [reflexivity|discriminate].
  - intros H. inversion H. subst r. split; [reflexivity|].
    intros _. discriminate.
Qed.

Lemma trim_end_idempotent (y : jsstring) :
  trim_end (trim_end y) = trim_end y.
Proof.
  induction y as [|c r IH]; simpl; [reflexivity|].
  destruct (trim_end r) as [|x r'] eqn:E.
  - destruct (is_ws c) eqn:W; simpl; [reflexivity|]. now rewrite W.
  - simpl. simpl in IH. rewrite IH. reflexivity.
Qed.

Lemma trim_start_head (s : jsstring) :
  trim_start s = []
  \/ exists c r, trim_start s = c :: r /\ is_ws c = false.
Proof.
  induction s as [|c r IH]; simpl; [now left|].
  destruct (is_ws c) eqn:E; [exact IH|].
  right. exists c, r. auto.
Qed.

(** A trimmed string has white space at neither end. *)
Lemma trim_is_tight (s : jsstring) :
  trim_start (trim s) = trim s /\ trim_end (trim s) = trim s.
Proof.
  unfold trim. split; [|apply trim_end_idempotent].
  destruct (trim_start_head s) as [H|[c [r [H W]]]]; rewrite H; [reflexivity|].
  rewrite trim_end_cons_nonws by exact W. simpl. now rewrite W.
Qed.

Lemma collapse_keeps_trim_start (x : jsstring) :
  trim_start x = x ->
  trim_start (replace_ws_runs false x) = replace_ws_runs false x.
Proof.
  destruct x as [|c r]; [reflexivity|].
  intros H. apply trim_start_fixed_head in H.
  simpl. rewrite H. simpl. now rewrite H.
Qed.

Lemma collapse_keeps_trim_end (x : jsstring) :
  forall b, trim_end x = x ->
            trim_end (replace_ws_runs b x) = replace_ws_runs b x.
Proof.
  induction x as [|c r IH]; intros b H; [reflexivity|].
  apply trim_end_fixed_tail in H. destruct H as [Hr Hne].
  simpl replace_ws_runs. destruct (is_ws c) eqn:W.
  - specialize (IH true Hr).
    destruct b; [exact IH|].
    assert (Hnn : replace_ws_runs true r <> []).
    { intros E. apply collapse_true_nil_iff in E.
      apply trim_end_nil_iff in E. rewrite Hr in E. now apply Hne. }
    simpl. rewrite IH.
    destruct (replace_ws_runs true r); [contradiction|reflexivity].
  - rewrite trim_end_cons_nonws by exact W. now rewrite (IH false Hr).
Qed.

(** Collapsing white-space runs twice is collapsing them once. *)
Lemma collapse_idempotent (s : jsstring) :
  (forall b, replace_ws_runs false (replace_ws_runs b s) = replace_ws_runs b s)
  /\ replace_ws_runs true (replace_ws_runs true s) = replace_ws_runs true s.
Proof.
  induction s as [|c r [IHa IHb]]; [split; [intros b|]; reflexivity|].
  split.
  - intros b. simpl. destruct (is_ws c) eqn:W.
    + destruct b; [apply IHa|].
      simpl. change (is_ws 32) with true. cbv iota. now rewrite IHb.
    + simpl. rewrite W. now rewrite IHa.
  - simpl. destruct (is_ws c) eqn:W; [exact IHb|].
    simpl. rewrite W. now rewrite IHa.
Qed.

Lemma trim_start_incl (s : jsstring) (c : N) :
  In c (trim_start s) -> In c s.
Proof.
  induction s as [|x r IH]; simpl; [tauto|].
  destruct (is_ws x); simpl; tauto.
Qed.

Lemma trim_end_incl (s : jsstring) (c : N) :
  In c (trim_end s) -> In c s.
Proof.
  induction s as [|x r IH]; simpl; [tauto|].
  destruct (trim_end r) as [|y r'].
  - destruct (is_ws x); simpl; tauto.
  - intros [H|H]; [now left|right; apply IH; exact H].
Qed.

Lemma collapse_units (s : jsstring) (b : bool) (c : N) :
  In c (replace_ws_runs b s) ->
  c = 32%N \/ (is_ws c = false /\ In c s).
Proof.
  revert b. induction s as [|x r IH]; intros b; simpl; [tauto|].
  destruct (is_ws x) eqn:W.
  - destruct b; simpl.
    + intros H. apply IH in H. tauto.
    + intros [H|H]; [now left|]. apply IH in H. tauto.
  - simpl. intros [H|H].
    + subst. right. auto.
    + apply IH in H. tauto.
Qed.

Lemma filter_all {A} (p : A -> bool) (l : list A) :
  (forall x, In x l -> p x = true) -> filter p l = l.
Proof.
  induction l as [|a l IH]; simpl; intros H; [reflexivity|].
  rewrite (H a (or_introl eq_refl)). f_equal. apply IH. auto.
Qed.

Lemma map_all {A} (f : A -> A) (l : list A) :
  (forall x, In x l -> f x = x) -> map f l = l.
Proof.
  induction l as [|a l IH]; simpl; intros H; [reflexivity|].
  rewrite (H a (or_introl eq_refl)). f_equal. apply IH. auto.
Qed.

Lemma span_digits_app (ds : jsstring) (u : N) (rest : jsstring) :
  forallb is_digit ds = true -> is_digit u = false ->
  span_digits (ds ++ u :: rest) = (ds, u :: rest).
Proof.
  intros Hd Hu. induction ds as [|d ds IH]; simpl.
  - now rewrite Hu.
  - simpl in Hd. apply andb_prop in Hd. destruct Hd as [H1 H2].
    rewrite H1, (IH H2). reflexivity.
Qed.

End StringFacts.

(** ** Identifiers *)

Section Identifiers.

Import PostExtractor LinkedInSelectors Spec Fixtures.

Lemma generatePostId_native (el : Element)
      (getAttr : jsstring -> option jsstring) (v : jsstring) (s : Sample) :
  el_getAttribute el = Some getAttr ->
  native_identifier getAttr = Some v -> v <> [] ->
  generatePostId s (Some el) = v.
Proof.
  intros Hg Hn Hv. unfold generatePostId. rewrite Hg.
  unfold native_identifier in Hn. rewrite Hn.
  destruct v; [contradiction|reflexivity].
Qed.

Lemma generatePostId_fallback (el : Element)
      (getAttr : jsstring -> option jsstring) (s : Sample) :
  el_getAttribute el = Some getAttr ->
  truthy_str (native_identifier getAttr) = false ->
  generatePostId s (Some el) = fallback_id s.
Proof.
  intros Hg Hn. unfold generatePostId. rewrite Hg.
  unfold native_identifier in Hn.
  destruct (or_else _ _) as [[|c u]|]; try reflexivity. discriminate.
Qed.

Lemma getPostId_data_id (el : Element)
      (getAttr : jsstring -> option jsstring) (v : jsstring) :
  el_getAttribute el = Some getAttr ->
  getAttr (lit "data-id") = Some v -> v <> [] ->
  getPostId el = Ok (Some v).
Proof.
  intros Hg Hd Hv. unfold getPostId, getAttribute. rewrite Hg.
  cbn [bind]. rewrite Hd. destruct v; [contradiction|reflexivity].
Qed.

(** C1, as the code has it.  For a container that carries a native
    identifier attribute, [generatePostId] returns the first non-empty of
    data-urn, data-id and data-activity-urn, and [getPostId] returns data-id,
    unchanged and whatever the clock and the random source read; the result
    depends on the attributes alone, so it is the same on every call and on
    every element with the same attributes.  For a container without such an
    attribute, [generatePostId] returns post_ followed by the clock reading,
    an underscore and a random suffix. *)
Theorem native_identifier_is_returned (el : Element)
        (getAttr : jsstring -> option jsstring) :
  el_getAttribute el = Some getAttr ->
  (forall v s, native_identifier getAttr = Some v -> v <> [] ->
               generatePostId s (Some el) = v)
  /\ (forall v, getAttr (lit "data-id") = Some v -> v <> [] ->
                getPostId el = Ok (Some v))
  /\ (forall s, truthy_str (native_identifier getAttr) = false ->
                generatePostId s (Some el)
                = lit "post_" ++ decimal_of_Z (date_now s)
                    ++ lit "_" ++ random36 s).
Proof.
  intros Hg. repeat apply conj.
  - intros v s. now apply generatePostId_native.
  - intros v. now apply getPostId_data_id.
  - intros s. now apply generatePostId_fallback.
Qed.

Lemma native_identifier_is_returned_witness :
  generatePostId (id_sample host0)
    (Some (with_urn 5 (lit "urn:li:activity:123456789")))
  = lit "urn:li:activity:123456789".
Proof.
  refine (proj1 (native_identifier_is_returned
                   (with_urn 5 (lit "urn:li:activity:123456789")) _ eq_refl)
            _ _ _ _).
  - vm_compute. reflexivity.
  - discriminate.
Defined.

(** C1 as stated fails on [generatePostId]: on one container without a
    native attribute, two calls give two identifiers, and neither is the
    hash of the trimmed text. *)
Lemma fallback_identifier_is_not_a_content_hash :
  generatePostId (mkSample 1 (lit "a")) (Some (leaf 7 (lit "Same content")))
  = lit "post_1_a"
  /\ generatePostId (mkSample 2 (lit "b")) (Some (leaf 7 (lit "Same content")))
     = lit "post_2_b"
  /\ generatePostId (mkSample 1 (lit "a")) (Some (leaf 7 (lit "Same content")))
     <> lit "post_" ++ simpleHash (trim (lit "Same content")).
Proof.
  repeat apply conj; try (vm_compute; reflexivity).
  vm_compute. discriminate.
Qed.

(** The selectors [getPostId] asks for under the type [content] do not
    exist: the lookup falls through to the whole table, and the query is
    made with that object. *)
Lemma content_lookup_yields_the_table :
  getAllSelectors (lit "content") (Some (lit "postUrl")) = [SelObj]
  /\ getAllSelectors (lit "content") (Some (lit "text")) = [SelObj].
Proof. split; vm_compute; reflexivity. Qed.

(** Hence, on an element of a real page without data-id, [getPostId] never
    reaches its content hash. *)
Lemma getPostId_throws_without_data_id (el : Element)
      (getAttr : jsstring -> option jsstring) :
  rejects_objects el ->
  el_getAttribute el = Some getAttr ->
  truthy_str (getAttr (lit "data-id")) = false ->
  getPostId el = Throw SyntaxError.
Proof.
  intros Hr Hg Hd. unfold getPostId, getAttribute. rewrite Hg.
  cbn [bind]. rewrite Hd.
  unfold findElement.
  change (getAllSelectors (lit "content") (Some (lit "postUrl")))
    with [SelObj].
  cbn [first_match]. rewrite Hr. reflexivity.
Qed.

Example simpleHash_hello : simpleHash (lit "hello") = lit "1n1e4y".
Proof. vm_compute. reflexivity. Qed.

End Identifiers.

(** ** Relative time labels *)

Section RelativeTime.

Import PostExtractor Spec.

Lemma backtrack_top (k : nat) (s g : jsstring) :
  k <> 0%nat -> unit_group (skipn k s) = Some g ->
  backtrack k s = Some (firstn k s, g).
Proof.
  intros Hk Hg. destruct k as [|k']; [contradiction|].
  cbn [backtrack]. now rewrite Hg.
Qed.

Lemma match_relative_digits_then (ds : jsstring) (u : N) (rest g : jsstring) :
  ds <> [] -> forallb is_digit ds = true -> is_digit u = false ->
  unit_group (u :: rest) = Some g ->
  match_relative (ds ++ u :: rest) = Some (ds, g).
Proof.
  intros Hne Hd Hu Hg.
  assert (H : match_here (ds ++ u :: rest) = Some (ds, g)).
  { unfold match_here. rewrite span_digits_app by assumption.
    cbn [fst]. rewrite backtrack_top with (g := g).
    - rewrite firstn_app, firstn_all, Nat.sub_diag. cbn [firstn].
      now rewrite app_nil_r.
    - destruct ds; [contradiction|discriminate].
    - rewrite skipn_app, skipn_all, Nat.sub_diag. exact Hg. }
  destruct ds as [|d ds']; [contradiction|].
  cbn [match_relative app]. cbn [app] in H. rewrite H. reflexivity.
Qed.

(** Decide the closed string tests of the [switch]. *)
Ltac decide_switch :=
  repeat match goal with
         | |- context [toLowerCase ?a] =>
             let v := eval vm_compute in (toLowerCase a) in
             change (toLowerCase a) with v
         end;
  repeat match goal with
         | |- context [str_eqb ?a ?b] =>
             let v := eval vm_compute in (str_eqb a b) in
             change (str_eqb a b) with v
         end;
  cbv iota.

Ltac read_label ds u rest Hne Hd :=
  unfold parseRelativeTime;
  match goal with
  | |- context [match_relative ?s] =>
      replace (match_relative s) with (Some (ds, [u]))
        by (symmetry;
            exact (match_relative_digits_then ds u rest [u] Hne Hd
                     eq_refl eq_refl))
  end;
  cbv beta iota; decide_switch;
  unfold day, hour, minute; f_equal; ring.

(** The single-letter units of the table are read as documented. *)
Lemma single_letter_units (now : Z) (ds : jsstring) :
  ds <> [] -> forallb is_digit ds = true ->
  parseRelativeTime now (ds ++ lit "m")
    = toISOString (now - digits_value ds * minute)
  /\ parseRelativeTime now (ds ++ lit "h")
    = toISOString (now - digits_value ds * hour)
  /\ parseRelativeTime now (ds ++ lit "d")
    = toISOString (now - digits_value ds * day)
  /\ parseRelativeTime now (ds ++ lit "w")
    = toISOString (now - digits_value ds * (7 * day))
  /\ parseRelativeTime now (ds ++ lit "y")
    = toISOString (now - digits_value ds * (365 * day)).
Proof.
  intros Hne Hd. repeat apply conj.
  - read_label ds 109%N (@nil N) Hne Hd.
  - read_label ds 104%N (@nil N) Hne Hd.
  - read_label ds 100%N (@nil N) Hne Hd.
  - read_label ds 119%N (@nil N) Hne Hd.
  - read_label ds 121%N (@nil N) Hne Hd.
Qed.

(** Whatever the count, a label in [mo] is read as a count of minutes: the
    first alternative of the group takes the [m], and the case for months
    is never reached. *)
Lemma months_read_as_minutes (now : Z) (ds : jsstring) :
  ds <> [] -> forallb is_digit ds = true ->
  parseRelativeTime now (ds ++ lit "mo")
  = toISOString (now - digits_value ds * minute).
Proof.
  intros Hne Hd. read_label ds 109%N [111%N] Hne Hd.
Qed.

(** C2, where the code departs from it: the label 1mo yields the instant
    one minute before now, not thirty days before now. *)
Theorem one_month_is_read_as_one_minute :
  forall now : Z,
    parseRelativeTime now (lit "1mo") = toISOString (now - 1 * minute)
    /\ parseRelativeTime 1700000000000 (lit "1mo")
       <> toISOString (1700000000000 - 30 * day).
Proof.
  intros now. split.
  - reflexivity.
  - vm_compute. discriminate.
Qed.

Example two_hours :
  parseRelativeTime 1700000000000 (lit "2h")
  = Ok (ISO (1700000000000 - 2 * hour)).
Proof. vm_compute. reflexivity. Qed.

End RelativeTime.

(** ** Extraction of one post *)

Section Extraction.

Import PostExtractor Fixtures.

Lemma extractPost_null_iff (settings : Settings) (h : Host)
      (postElement : option Element) :
  extractPost settings h postElement = None
  <-> throws (extractPost_body settings h postElement) = true.
Proof.
  unfold extractPost.
  destruct (extractPost_body settings h postElement); simpl;
    split; auto; discriminate.
Qed.

Lemma extractPost_absent_container (settings : Settings) (h : Host) :
  extractPost settings h None = None.
Proof. reflexivity. Qed.

(** A throw of the first field extractor is not caught per field: it leaves
    the [try] block of [extractPost]. *)
Lemma extractPost_null_when_author_throws (settings : Settings) (h : Host)
      (el : Element) (e : error) :
  extractAuthorName el = Throw e ->
  extractPost settings h (Some el) = None.
Proof.
  intros H. unfold extractPost, extractPost_body, extractAuthor.
  rewrite H. reflexivity.
Qed.

(** C3, where the code departs from it: for the container of the unit test
    on DOM exceptions, which is present and whose [querySelector] throws,
    [extractPost] returns null instead of a record with default fields. *)
Theorem extractPost_null_when_a_query_throws :
  forall h : Host,
    extractPost default_settings h (Some mockPostWithError) = None.
Proof. intros h. reflexivity. Qed.

Lemma extractAuthorName_unknown_without_match (key : nat) (t : jsstring) :
  extractAuthorName (leaf key t) = Ok (lit "Unknown").
Proof. reflexivity. Qed.

(** C4, where the code departs from it: when the author element is found
    and its text is empty, [extractAuthorName] returns the empty string, not
    the sentinel. *)
Theorem extractAuthorName_empty_for_empty_element :
  extractAuthorName post_with_empty_author = Ok [].
Proof. vm_compute. reflexivity. Qed.

End Extraction.

(** ** Formatting *)

Section Formatting.

Import DataFormatter Spec Fixtures.

Lemma sanitizeString_Unknown : sanitizeString (lit "Unknown") = lit "Unknown".
Proof. vm_compute. reflexivity. Qed.

(** After formatting, an absent or empty raw name has become the
    sentinel. *)
Lemma formatAuthorData_defaults_name (valid_url : jsstring -> bool)
      (authorData : option RawAuthor) :
  (authorData = None
   \/ exists a, authorData = Some a /\ truthy_str (ra_name a) = false) ->
  ad_name (formatAuthorData valid_url authorData) = Some (lit "Unknown").
Proof.
  intros [->|[a [-> H]]]; [reflexivity|].
  unfold formatAuthorData. cbn [ad_name]. unfold sanitize_or.
  destruct (ra_name a) as [[|c n]|]; try discriminate H;
    now rewrite sanitizeString_Unknown.
Qed.

(** A raw name made of characters that [sanitizeString] removes is
    formatted to the empty string. *)
Lemma formatAuthorData_can_empty_the_name :
  ad_name (formatAuthorData accept_all
             (Some (mkRawAuthor (Some [1%N]) None None None None)))
  = Some [].
Proof. vm_compute. reflexivity. Qed.

(** The examples of the design document for [parseNumber]. *)
Lemma parseNumber_documented_examples :
  parseNumber (SStr (lit "1.2K")) = num_of_Z 1200
  /\ parseNumber (SStr (lit "5M")) = num_of_Z 5000000
  /\ parseNumber (SStr (lit "1,234")) = num_of_Z 1234
  /\ parseNumber (SStr (lit "")) = num_of_Z 0
  /\ parseNumber SNull = num_of_Z 0
  /\ (forall n, parseNumber (SNum n) = n).
Proof. repeat apply conj; try (vm_compute; reflexivity). Qed.

(** C5, where the code departs from it: an input without digits that
    contains one of the suffix letters is not parsable, and [parseNumber]
    returns NaN for it, not 0. *)
Theorem parseNumber_letter_k_is_NaN :
  parseNumber (SStr (lit "k")) = NaN
  /\ parseNumber (SStr (lit "many")) = NaN.
Proof. split; vm_compute; reflexivity. Qed.

Lemma validatePostData_throws_iff (p : Post) :
  throws (validatePostData p) = true <-> must_fail p.
Proof.
  unfold validatePostData, must_fail, media_present.
  destruct p as [pid purl pa pc pm pmd pt]; simpl.
  destruct (truthy_str pid) eqn:Hid; simpl.
  2:{ split; auto. }
  destruct pa as [a|]; simpl.
  2:{ split; auto. }
  destruct pc as [c|]; simpl.
  2:{ split; auto. }
  destruct (truthy_str (ad_name a)) eqn:Hn; simpl.
  2:{ split; auto. intros _. right. right. right. left. exists a. auto. }
  destruct (truthy_str (cd_text c)) eqn:Ht; simpl.
  - split; [discriminate|].
    intros [H|[H|[H|[[a' [Ha Hf]]|[c' [Hc [Hf _]]]]]]]; try discriminate.
    + inversion Ha; subst. congruence.
    + inversion Hc; subst. congruence.
  - destruct pmd as [m|]; simpl.
    + destruct (hasMedia m) eqn:Hm; simpl.
      * split; [discriminate|].
        intros [H|[H|[H|[[a' [Ha Hf]]|[c' [Hc [_ Hf]]]]]]]; try discriminate.
        inversion Ha; subst. congruence.
      * split; auto. intros _. do 4 right. exists c. auto.
    + split; auto. intros _. do 4 right. exists c. auto.
Qed.

Lemma formatPostData_null_on_failure (valid_url : jsstring -> bool)
      (raw : option RawPost) (p : Post) :
  format_fields valid_url raw = Ok p ->
  throws (validatePostData p) = true ->
  formatPostData valid_url raw = None.
Proof.
  intros Hf Hm. unfold formatPostData. rewrite Hf.
  destruct (validatePostData p); [discriminate|reflexivity].
Qed.

(** C6.  [validatePostData] throws exactly when id, author or content is
    falsy, when author.name is falsy, or when content.text is empty and no
    media is present; for a raw record whose formatted form fails
    validation, [formatPostData] returns null; and in a batch formatted
    record by record, such a record yields null at its place and leaves the
    results of the others as they are. *)
Theorem validation_failure_yields_null :
  forall (valid_url : jsstring -> bool) (p : Post),
    (throws (validatePostData p) = true <-> must_fail p)
    /\ (forall raw,
          format_fields valid_url raw = Ok p ->
          throws (validatePostData p) = true ->
          formatPostData valid_url raw = None)
    /\ (forall before after raw,
          format_fields valid_url raw = Ok p ->
          throws (validatePostData p) = true ->
          map (formatPostData valid_url) (before ++ raw :: after)
          = map (formatPostData valid_url) before
              ++ None :: map (formatPostData valid_url) after).
Proof.
  intros valid_url p. split; [apply validatePostData_throws_iff|].
  split; [intros raw; apply formatPostData_null_on_failure|].
  intros before after raw Hf Hm.
  rewrite map_app. simpl.
  rewrite (formatPostData_null_on_failure valid_url raw p Hf Hm).
  reflexivity.
Qed.

Lemma validation_failure_yields_null_witness :
  formatPostData accept_all (Some raw_without_id) = None.
Proof.
  refine (proj1 (proj2 (validation_failure_yields_null accept_all _))
            (Some raw_without_id) eq_refl _).
  vm_compute. reflexivity.
Defined.

(** C9.  [determinePostType] is the documented precedence: any video gives
    video; else more than one image gives carousel; else exactly one image
    gives image; else any document gives document; else a content text that
    contains poll gives poll; else text.  A record with one video and three
    images is a video. *)
Theorem determinePostType_follows_precedence :
  (forall postData,
      determinePostType postData = postType_by_precedence postData)
  /\ (forall v i1 i2 i3 docs id u a c m,
        determinePostType
          (mkRawPost id u a c m
             (Some (mkRawMedia (Some [i1; i2; i3]) (Some [v]) docs)))
        = video).
Proof.
  split.
  - intros [rid rurl ra rc rm rmedia].
    unfold determinePostType, postType_by_precedence, media_member,
      content_text, contains_poll, count, length_gt, length_is. simpl.
    destruct rmedia as [[im vi dc]|]; simpl.
    + destruct vi as [vi|], im as [im|], dc as [dc|], rc as [|s|[t|]];
        simpl; try reflexivity.
    + destruct rc as [|s|[t|]]; reflexivity.
  - intros. reflexivity.
Qed.

Example poll_is_case_sensitive :
  determinePostType
    (mkRawPost None None None (CObject (Some (lit "Our Poll results")))
       None None) = text
  /\ determinePostType
       (mkRawPost None None None (CObject (Some (lit "a poll for you")))
          None None) = poll.
Proof. split; vm_compute; reflexivity. Qed.

Lemma crlf_tab_is_ws (c : N) : is_crlf_tab c = true -> is_ws c = true.
Proof.
  unfold is_crlf_tab. rewrite !orb_true_iff, !N.eqb_eq.
  intros [[H|H]|H]; subst; reflexivity.
Qed.

(** Units of a collapsed string that came from clean units are kept by the
    last three steps of [sanitizeString]. *)
Lemma tail_steps_identity (t : jsstring) :
  (forall c, In c t ->
             c = 32%N \/ (is_ws c = false /\ clean_unit c = true)) ->
  (List.length t <= max_length)%nat ->
  firstn max_length
    (filter printable
       (map (fun c => if is_crlf_tab c then 32%N else c) t)) = t.
Proof.
  intros Hu Hl.
  rewrite map_all.
  - rewrite filter_all.
    + apply firstn_all2. exact Hl.
    + intros c Hc. destruct (Hu c Hc) as [->|[W C]]; [reflexivity|].
      unfold clean_unit in C. rewrite W in C. exact C.
  - intros c Hc. destruct (is_crlf_tab c) eqn:E; [|reflexivity].
    destruct (Hu c Hc) as [->|[W _]]; [reflexivity|].
    apply crlf_tab_is_ws in E. congruence.
Qed.

Lemma clean_units_survive (s : jsstring) (c : N) :
  forallb clean_unit s = true ->
  In c (replace_ws_runs false (trim s)) ->
  c = 32%N \/ (is_ws c = false /\ clean_unit c = true).
Proof.
  intros Hc Hin. apply collapse_units in Hin.
  destruct Hin as [->|[W Hin]]; [now left|]. right. split; [exact W|].
  unfold trim in Hin. apply trim_end_incl, trim_start_incl in Hin.
  rewrite forallb_forall in Hc. now apply Hc.
Qed.

(** On clean text that fits, [sanitizeString] trims and collapses, and does
    nothing else. *)
Lemma sanitizeString_normal_form (s : jsstring) :
  forallb clean_unit s = true -> fits s ->
  sanitizeString s = replace_ws_runs false (trim s).
Proof.
  intros Hc Hf. destruct s as [|x r]; [reflexivity|].
  unfold sanitizeString. apply tail_steps_identity; [|exact Hf].
  intros c. now apply clean_units_survive.
Qed.

(** C10, as the code has it.  For every string whose code units are white
    space or printable (U+0020 to U+007E, U+00A0 to U+FFFF) and whose
    trimmed, collapsed form has at most 10000 code units, sanitizing the
    sanitized string gives the sanitized string. *)
Theorem sanitizeString_idempotent_on_clean_text (s : jsstring) :
  forallb clean_unit s = true -> fits s ->
  sanitizeString (sanitizeString s) = sanitizeString s.
Proof.
  intros Hc Hf.
  rewrite (sanitizeString_normal_form s Hc Hf).
  set (t := replace_ws_runs false (trim s)).
  assert (Htrim : trim t = t).
  { destruct (trim_is_tight s) as [Hs He].
    unfold trim. unfold t.
    rewrite collapse_keeps_trim_start by exact Hs.
    apply collapse_keeps_trim_end. exact He. }
  assert (Hcol : replace_ws_runs false t = t).
  { unfold t. apply (proj1 (collapse_idempotent (trim s))). }
  destruct t as [|x r] eqn:Et; [reflexivity|].
  unfold sanitizeString. rewrite Htrim, Hcol.
  apply tail_steps_identity.
  - intros c Hin. rewrite <- Et in Hin. unfold t in Hin.
    now apply (clean_units_survive s).
  - rewrite <- Et. exact Hf.
Qed.

Lemma sanitizeString_idempotent_on_clean_text_witness :
  sanitizeString (sanitizeString (lit "  Hello   World "))
  = sanitizeString (lit "  Hello   World ").
Proof.
  apply sanitizeString_idempotent_on_clean_text.
  - vm_compute. reflexivity.
  - unfold fits. vm_compute. lia.
Defined.

(** C10 as stated fails: removing a control character between two spaces
    leaves two spaces, which a second pass collapses. *)
Lemma sanitizeString_not_idempotent :
  sanitizeString [97; 32; 0; 32; 98]%N = [97; 32; 32; 98]%N
  /\ sanitizeString (sanitizeString [97; 32; 0; 32; 98]%N)
     = [97; 32; 98]%N
  /\ sanitizeString (sanitizeString [97; 32; 0; 32; 98]%N)
     <> sanitizeString [97; 32; 0; 32; 98]%N.
Proof.
  repeat apply conj; try (vm_compute; reflexivity).
  vm_compute. discriminate.
Qed.

End Formatting.

(** ** Scanning *)

Section Scanning.

Import DataFormatter DOMScanner ProgressInvariants Fixtures.



(** The bound on the iterations of the loop over the initial posts is never
    what ends it: a larger bound gives the same run. *)
Lemma batches_bound_suffices (env : Env) (o : ScanOptions)
      (initialPosts : list Element) :
  forall n i r,
    (List.length initialPosts <= i + n)%nat ->
    batches env o initialPosts (S n) i r = batches env o initialPosts n i r.
Proof.
  induction n as [|n IH]; intros i r Hn.
  - cbn [batches].
    destruct (i <? List.length initialPosts)%nat eqn:E; [|reflexivity].
    apply Nat.ltb_lt in E. lia.
  - cbn [batches] in *.
    destruct ((i <? List.length initialPosts)%nat
              && (extractedCount (scanner r) <? maxPosts o)%Z); [|reflexivity].
    apply IH. unfold batchSize. lia.
Qed.

Section LoopInvariants.

Variable env : Env.
Variable o : ScanOptions.

Lemma processBatch_progress (l : list Element) (s : Scanner) :
  scanProgress (processBatch env o l s) = scanProgress s.
Proof.
  revert s. induction l as [|e l IH]; intros s; simpl; [reflexivity|].
  destruct (isScanning s); simpl; [|reflexivity].
  destruct (extract_one env o e) as [[pd|]|]; try apply IH.
  destruct (maxPosts o <=? extractedCount (push pd s))%Z; [reflexivity|].
  rewrite IH. reflexivity.
Qed.

Lemma extractedCount_push (pd : Post) (s : Scanner) :
  extractedCount (push pd s) = (extractedCount s + 1)%Z.
Proof.
  unfold extractedCount, push. simpl. rewrite length_app. simpl. lia.
Qed.



Lemma await_posts (r : Run) :
  extractedPosts (scanner (await env r)) = extractedPosts (scanner r).
Proof.
  unfold await, stopScan. simpl.
  destruct (stop_requested env (awaits r)); [|reflexivity].
  simpl. destruct (isScanning (scanner r)); reflexivity.
Qed.


Lemma await_looks (r : Run) : looks (await env r) = looks r.
Proof.
  unfold await, stopScan. simpl.
  destruct (stop_requested env (awaits r)); [|reflexivity].
  simpl. destruct (isScanning (scanner r)); reflexivity.
Qed.





Lemma posts_report (r : Run) :
  extractedPosts (scanner (report r)) = extractedPosts (scanner r).
Proof. reflexivity. Qed.


Lemma looks_report (r : Run) : looks (report r) = looks r.
Proof. reflexivity. Qed.











End LoopInvariants.









Example shrinking_scan_completes :
  fst (startScan shrinking_env no_options 10 idle) = Resolved [a_post].
Proof. vm_compute. reflexivity. Qed.

End Scanning.

(* ================================================================== *)
(** * Further properties of the code *)
(* ================================================================== *)

Section TrimFacts.

Lemma trim_end_length (s : jsstring) :
  (List.length (trim_end s) <= List.length s)%nat.
Proof.
  induction s as [|c r IH]; simpl; [lia|].
  destruct (trim_end r) as [|x r']; simpl in *.
  - destruct (is_ws c); simpl; lia.
  - lia.
Qed.

Lemma trim_length (s : jsstring) :
  (List.length (trim s) <= List.length s)%nat.
Proof.
  unfold trim. pose proof (trim_end_length (trim_start s)).
  pose proof (trim_start_length s). lia.
Qed.

Lemma collapse_length (s : jsstring) (b : bool) :
  (List.length (replace_ws_runs b s) <= List.length s)%nat.
Proof.
  revert b. induction s as [|c r IH]; intros b; simpl; [lia|].
  destruct (is_ws c).
  - destruct b; simpl.
    + specialize (IH true). lia.
    + specialize (IH true). lia.
  - simpl. specialize (IH false). lia.
Qed.


(** Trimming and collapsing reaches a fixed point at once. *)
Lemma normal_form_fixed (s : jsstring) :
  replace_ws_runs false (trim (replace_ws_runs false (trim s)))
  = replace_ws_runs false (trim s).
Proof.
  destruct (trim_is_tight s) as [Hs He].
  assert (Ht : trim (replace_ws_runs false (trim s))
               = replace_ws_runs false (trim s)).
  { unfold trim at 1.
    rewrite collapse_keeps_trim_start by exact Hs.
    apply collapse_keeps_trim_end. exact He. }
  rewrite Ht. apply (proj1 (collapse_idempotent (trim s))).
Qed.

End TrimFacts.

Section Sanitizing.
Import DataFormatter Spec Fixtures Terms.

Lemma In_firstn {A} (n : nat) (l : list A) (x : A) :
  In x (firstn n l) -> In x l.
Proof.
  revert l. induction n as [|n IH]; intros [|a l]; simpl; try tauto.
  intros [H|H]; [now left|right; now apply IH].
Qed.

Lemma sanitizeString_units_printable (s : jsstring) (c : N) :
  In c (sanitizeString s) -> printable c = true.
Proof.
  destruct s as [|x r]; [intros []|].
  unfold sanitizeString. intros H.
  apply In_firstn in H. apply filter_In in H. tauto.
Qed.

Lemma sanitizeString_length (s : jsstring) :
  (List.length (sanitizeString s) <= max_length)%nat.
Proof.
  destruct s as [|x r]; [simpl; lia|].
  unfold sanitizeString. apply firstn_le_length.
Qed.

(** X1. What sanitizeString returns is at most 10000 units long and holds
    printable units only. *)
Theorem sanitizeString_bounded_and_printable (s : jsstring) :
  (N.of_nat (List.length (sanitizeString s)) <= 10000)%N
  /\ forallb printable (sanitizeString s) = true
  /\ (List.length (sanitizeString s) <= List.length s)%nat.
Proof.
  split; [|split].
  - pose proof (sanitizeString_length s) as H. unfold max_length in H. lia.
  - apply forallb_forall. intros c. apply sanitizeString_units_printable.
  - destruct s as [|x r]; [simpl; lia|].
    unfold sanitizeString.
    rewrite length_firstn.
    etransitivity; [apply Nat.le_min_r|].
    etransitivity; [apply filter_length_le|].
    rewrite length_map.
    etransitivity; [apply collapse_length|]. apply trim_length.
Qed.

Lemma sanitized_is_clean (s : jsstring) :
  forallb clean_unit (sanitizeString s) = true /\ fits (sanitizeString s).
Proof.
  split.
  - apply forallb_forall. intros c Hc.
    apply sanitizeString_units_printable in Hc.
    unfold clean_unit. rewrite Hc. apply orb_true_r.
  - unfold fits.
    etransitivity; [apply collapse_length|].
    etransitivity; [apply trim_length|]. apply sanitizeString_length.
Qed.

(** X2. The second pass of sanitizeString reaches a fixed point. *)
Theorem sanitizeString_stable_after_second_pass (s : jsstring) :
  sanitizeString (sanitizeString (sanitizeString s))
  = sanitizeString (sanitizeString s).
Proof.
  destruct (sanitized_is_clean s) as [Hc Hf].
  set (y := sanitizeString s) in *.
  rewrite (sanitizeString_normal_form y Hc Hf).
  set (t := replace_ws_runs false (trim y)).
  assert (Hct : forallb clean_unit t = true).
  { apply forallb_forall. intros c Hin.
    destruct (clean_units_survive y c Hc Hin) as [->|[_ H]]; [reflexivity|exact H]. }
  assert (Hft : fits t).
  { unfold fits, t. rewrite normal_form_fixed. exact Hf. }
  rewrite (sanitizeString_normal_form t Hct Hft).
  unfold t. apply normal_form_fixed.
Qed.

Section Url.
Variable valid_url : jsstring -> bool.

Lemma formatUrl_cons (c : N) (u : jsstring) :
  formatUrl valid_url (Some (c :: u))
  = if valid_url (if N.eqb 47 c then origin ++ c :: u else c :: u)
    then (if N.eqb 47 c then origin ++ c :: u else c :: u)
    else [].
Proof.
  unfold formatUrl.
  replace (starts_with (lit "/") (c :: u)) with (N.eqb 47 c)
    by (cbn; symmetry; apply andb_true_r).
  reflexivity.
Qed.

Lemma origin_head : exists o, origin = 104%N :: o.
Proof. eexists. reflexivity. Qed.

(** X3. formatUrl returns the empty string or a URL the host accepts; a
    root-relative path is put on the canonical origin; formatting a
    formatted URL changes nothing. *)
Theorem formatUrl_valid_or_empty (url : option jsstring) :
  (formatUrl valid_url url = []
   \/ valid_url (formatUrl valid_url url) = true)
  /\ (forall rest,
        url = Some (47%N :: rest) ->
        formatUrl valid_url url = []
        \/ formatUrl valid_url url
           = lit "https://www.linkedin.com" ++ 47%N :: rest)
  /\ formatUrl valid_url (Some (formatUrl valid_url url))
     = formatUrl valid_url url.
Proof.
  destruct url as [[|c u]|];
    try (simpl; split; [now left|split; [discriminate|reflexivity]]).
  rewrite formatUrl_cons. fold origin.
  destruct origin_head as [o Ho].
  destruct (N.eqb 47 c) eqn:E.
  - apply N.eqb_eq in E. subst c.
    destruct (valid_url (origin ++ 47%N :: u)) eqn:V.
    + split; [right; exact V|]. split; [intros rest H; right; congruence|].
      rewrite Ho. cbn [app]. rewrite formatUrl_cons.
      change (N.eqb 47 104) with false. cbv iota.
      rewrite Ho in V. cbn [app] in V. now rewrite V.
    + split; [now left|]. split; [intros; now left|reflexivity].
  - destruct (valid_url (c :: u)) eqn:V.
    + split; [right; exact V|]. split.
      * intros rest H. inversion H. subst. rewrite N.eqb_refl in E. discriminate.
      * rewrite formatUrl_cons, E. now rewrite V.
    + split; [now left|]. split; [intros; now left|reflexivity].
Qed.

End Url.

End Sanitizing.

Section FormatterFacts.
Import DataFormatter Spec Fixtures Terms Cases.



Section WithUrl.
Variable valid_url : jsstring -> bool.

Lemma format_fields_inv (raw : option RawPost) (p : Post) :
  format_fields valid_url raw = Ok p ->
  exists r c,
    raw = Some r /\ formatContent (raw_content r) = Ok c
    /\ p = mkPost (Some (sanitize_or (raw_id r) []))
                  (formatUrl valid_url (raw_url r))
                  (Some (formatAuthorData valid_url (raw_author r)))
                  (Some c)
                  (Some (formatMetrics (raw_metrics r)))
                  (Some (formatMediaData valid_url (raw_media r)))
                  (determinePostType r).
Proof.
  destruct raw as [r|]; [|discriminate].
  unfold format_fields.
  destruct (formatContent (raw_content r)) as [c|e] eqn:Hc; [|discriminate].
  cbn [bind]. intros H. inversion H. exists r, c. auto.
Qed.

Lemma formatPostData_inv (raw : option RawPost) (p : Post) :
  formatPostData valid_url raw = Some p ->
  format_fields valid_url raw = Ok p /\ validatePostData p = Ok tt.
Proof.
  unfold formatPostData.
  destruct (format_fields valid_url raw) as [f|e]; [|discriminate].
  destruct (validatePostData f) as [[]|e] eqn:Hv; [|discriminate].
  intros H. inversion H. subst. auto.
Qed.

(** X5. No record that formatPostData returns has the post type poll: the
    poll test reads the text member of the raw content, and a raw content
    with members is not a string that formatContent can trim. *)
Theorem formatPostData_never_poll (raw : option RawPost) (p : Post) :
  formatPostData valid_url raw = Some p -> p_postType p <> poll.
Proof.
  intros H. apply formatPostData_inv in H. destruct H as [Hf _].
  apply format_fields_inv in Hf.
  destruct Hf as [r [c [-> [Hc ->]]]]. cbn [p_postType].
  unfold determinePostType.
  destruct (raw_content r) as [|s|t]; [| |discriminate Hc];
    repeat match goal with |- context [if ?b then _ else _] => destruct b end;
    discriminate.
Qed.

Lemma Ok_inj {A} (a b : A) : Ok a = Ok b -> a = b.
Proof. intros H. now inversion H. Qed.

Lemma formatContent_text (c : RawContent) (cd : ContentData) :
  formatContent c = Ok cd ->
  exists s, content_string c = Some s /\ cd_text cd = Some (sanitizeString s).
Proof.
  destruct c as [|[|x s]|t]; cbn [formatContent]; intros H.
  - apply Ok_inj in H. subst cd. exists []. split; reflexivity.
  - apply Ok_inj in H. subst cd. exists []. split; reflexivity.
  - apply Ok_inj in H. subst cd. exists (x :: s).
    cbn [content_string cd_text]. split; reflexivity.
  - discriminate H.
Qed.

Lemma formatContent_ok (c : RawContent) (s : jsstring) :
  content_string c = Some s ->
  exists cd, formatContent c = Ok cd /\ cd_text cd = Some (sanitizeString s).
Proof.
  destruct c as [|[|x r]|t]; cbn [content_string]; intros H.
  - apply (f_equal (fun o => match o with Some v => v | None => s end)) in H.
    subst s. eexists. split; reflexivity.
  - apply (f_equal (fun o => match o with Some v => v | None => s end)) in H.
    subst s. eexists. split; reflexivity.
  - apply (f_equal (fun o => match o with Some v => v | None => s end)) in H.
    subst s. cbn [formatContent]. eexists. split; [reflexivity|].
    cbn [cd_text]. reflexivity.
  - discriminate H.
Qed.

Lemma truthy_Some_iff (s : jsstring) : truthy_str (Some s) = true <-> s <> [].
Proof. destruct s; simpl; split; congruence. Qed.

Lemma hasMedia_formatMediaData (m : option RawMedia) :
  hasMedia (formatMediaData valid_url m) = hasAnyMedia m.
Proof. destruct m; reflexivity. Qed.

(** X6. formatPostData keeps a raw record exactly when its content is
    absent or a string, its sanitized id is not empty, its formatted author
    name is not empty, and its sanitized text is not empty or it has media. *)
Theorem formatPostData_keeps_exactly (r : RawPost) :
  (exists p, formatPostData valid_url (Some r) = Some p)
  <-> (exists s,
         content_string (raw_content r) = Some s
         /\ sanitize_or (raw_id r) [] <> []
         /\ formatted_name (raw_author r) <> []
         /\ (sanitizeString s <> [] \/ hasAnyMedia (raw_media r) = true)).
Proof.
  split.
  - intros [p H]. apply formatPostData_inv in H. destruct H as [Hf Hv].
    apply format_fields_inv in Hf. destruct Hf as [r' [c [E [Hc ->]]]].
    inversion E. subst r'. clear E.
    destruct (formatContent_text _ _ Hc) as [s [Hs Ht]].
    exists s. split; [exact Hs|].
    unfold validatePostData in Hv. cbn [p_id p_author p_content p_media] in Hv.
    destruct (truthy_str (Some (sanitize_or (raw_id r) []))) eqn:Hid;
      [|discriminate].
    apply truthy_Some_iff in Hid. split; [exact Hid|].
    cbn [negb] in Hv.
    assert (Hn : ad_name (formatAuthorData valid_url (raw_author r))
                 = Some (formatted_name (raw_author r)))
      by (destruct (raw_author r); reflexivity).
    rewrite Hn in Hv.
    destruct (truthy_str (Some (formatted_name (raw_author r)))) eqn:Hname;
      [|discriminate].
    apply truthy_Some_iff in Hname. split; [exact Hname|].
    cbn [negb] in Hv. rewrite Ht in Hv.
    destruct (truthy_str (Some (sanitizeString s))) eqn:Htext.
    + left. now apply truthy_Some_iff.
    + right. rewrite hasMedia_formatMediaData in Hv.
      destruct (hasAnyMedia (raw_media r)); [reflexivity|discriminate].
  - intros [s [Hs [Hid [Hname Hbody]]]].
    destruct (formatContent_ok _ _ Hs) as [cd [Hc Ht]].
    unfold formatPostData, format_fields. rewrite Hc. cbn [bind].
    unfold validatePostData. cbn [p_id p_author p_content p_media].
    apply truthy_Some_iff in Hid. rewrite Hid. cbn [negb].
    assert (Hn : ad_name (formatAuthorData valid_url (raw_author r))
                 = Some (formatted_name (raw_author r)))
      by (destruct (raw_author r); reflexivity).
    rewrite Hn. apply truthy_Some_iff in Hname. rewrite Hname. cbn [negb].
    rewrite Ht, hasMedia_formatMediaData.
    destruct Hbody as [Hb|Hb].
    + apply truthy_Some_iff in Hb. rewrite Hb. eexists. reflexivity.
    + rewrite Hb.
      destruct (truthy_str (Some (sanitizeString s))); eexists; reflexivity.
Qed.

End WithUrl.

Lemma formatPostData_never_poll_witness :
  exists p,
    formatPostData accept_all (Some raw_about_a_poll) = Some p
    /\ p_postType p <> poll.
Proof.
  eexists. split; [reflexivity|].
  apply (formatPostData_never_poll accept_all (Some raw_about_a_poll)).
  reflexivity.
Defined.

End FormatterFacts.

Section ExtractorFacts.
Import PostExtractor Spec Fixtures Cases.

Lemma for_selectors_none {A} (el : Element) (sels : list SelArg)
      (body : Element -> Exc (option A)) (d : A) :
  (forall s, el_querySelector el s = Ok None) ->
  for_selectors el sels body d = Ok d.
Proof.
  intros H. induction sels as [|s r IH]; simpl; [reflexivity|].
  rewrite H. simpl. exact IH.
Qed.

(** X7. A container in which no query finds anything is extracted to the
    record of defaults. *)
Theorem extractPost_defaults_for_empty_container
        (settings : Settings) (h : Host) (el : Element) :
  (forall s, el_querySelector el s = Ok None) ->
  el_querySelectorAll el (SelStr (lit "img[src]")) = Ok [] ->
  extractPost settings h (Some el)
  = Some (mkPostData
            (generatePostId (id_sample h) (Some el))
            (generatePostUrl h (Some el))
            (mkAuthor (lit "Unknown") [] [])
            []
            None
            (if extractMetrics_on settings
             then Some (mkMetrics (num_of_Z 0) (num_of_Z 0) (num_of_Z 0))
             else None)
            (if extractImages_on settings then Some [] else None)).
Proof.
  intros Hq Hall.
  unfold extractPost, extractPost_body, extractAuthor, extractAuthorName,
    extractAuthorTitle, extractAuthorProfileUrl, extractContent,
    extractTimestamp, extractMetrics, extractLikes, extractComments,
    extractShares, metric, extractImages.
  rewrite !for_selectors_none by exact Hq. cbn [bind].
  rewrite Hall. cbn [bind collect_images].
  destruct (extractMetrics_on settings), (extractImages_on settings);
    reflexivity.
Qed.

Lemma extractPost_defaults_for_empty_container_witness :
  extractPost default_settings host0 (Some (leaf 3 (lit "nothing here")))
  = Some (mkPostData (fallback_id (id_sample host0))
            (lit "https://www.linkedin.com/feed/")
            (mkAuthor (lit "Unknown") [] []) [] None
            (Some (mkMetrics (num_of_Z 0) (num_of_Z 0) (num_of_Z 0)))
            (Some [])).
Proof.
  exact (extractPost_defaults_for_empty_container default_settings host0
           (leaf 3 (lit "nothing here")) (fun _ => eq_refl) eq_refl).
Defined.




Lemma collect_images_In (imgs : list Element) (src : jsstring) :
  In src (collect_images imgs)
  <-> exists img, In img imgs /\ keep_image img = Some src.
Proof.
  induction imgs as [|i r IH]; simpl.
  - split; [tauto|intros [x [[] _]]].
  - destruct (keep_image i) as [s|] eqn:K; simpl.
    + rewrite IH. split.
      * intros [<-|[x [Hx Hk]]]; [exists i; auto|exists x; auto].
      * intros [x [[<-|Hx] Hk]]; [left; congruence|right; exists x; auto].
    + rewrite IH. split.
      * intros [x [Hx Hk]]. exists x; auto.
      * intros [x [[<-|Hx] Hk]]; [congruence|exists x; auto].
Qed.

Lemma keep_image_spec (img : Element) (src : jsstring) :
  keep_image img = Some src
  <-> el_src img = Some src /\ src <> []
      /\ includes src (lit "data:image") = false
      /\ includes src (lit "spacer.gif") = false.
Proof.
  unfold keep_image. destruct (el_src img) as [[|c s]|].
  - split; [discriminate|]. intros [H [Hn _]]. inversion H. congruence.
  - destruct (includes (c :: s) (lit "data:image")) eqn:D;
      destruct (includes (c :: s) (lit "spacer.gif")) eqn:G; cbn [negb andb];
      split; try discriminate.
    + intros [H [_ [H1 _]]]. inversion H. subst. congruence.
    + intros [H [_ [H1 _]]]. inversion H. subst. congruence.
    + intros [H [_ [_ H1]]]. inversion H. subst. congruence.
    + intros H. inversion H. subst. repeat split; auto. discriminate.
    + intros [H _]. exact H.
  - split; [discriminate|]. intros [H _]. discriminate.
Qed.

(** X9. extractImages returns, in document order, exactly the sources of the
    images under the container that are not empty, not data URIs and not the
    spacer asset. *)
Theorem extractImages_filters_placeholders (el : Element)
        (imgs : list Element) :
  el_querySelectorAll el (SelStr (lit "img[src]")) = Ok imgs ->
  exists srcs,
    extractImages el = Ok srcs
    /\ (List.length srcs <= List.length imgs)%nat
    /\ forall src,
         In src srcs
         <-> exists img,
               In img imgs /\ el_src img = Some src /\ src <> []
               /\ includes src (lit "data:image") = false
               /\ includes src (lit "spacer.gif") = false.
Proof.
  intros H. unfold extractImages. rewrite H. cbn [bind].
  exists (collect_images imgs). split; [reflexivity|]. split.
  - clear H. induction imgs as [|i r IH]; simpl; [lia|].
    destruct (keep_image i); simpl; lia.
  - intros src. rewrite collect_images_In. split.
    + intros [img [Hin Hk]]. exists img. split; [exact Hin|].
      now apply keep_image_spec.
    + intros [img [Hin Hk]]. exists img. split; [exact Hin|].
      now apply keep_image_spec.
Qed.

Lemma extractImages_filters_placeholders_witness :
  exists srcs,
    extractImages post_with_images = Ok srcs
    /\ (List.length srcs <= 3)%nat.
Proof.
  destruct (extractImages_filters_placeholders post_with_images _ eq_refl)
    as [srcs [H [L _]]].
  exists srcs. split; [exact H|exact L].
Defined.

(** X10. cleanContent is idempotent. *)
Theorem cleanContent_idempotent (t : option jsstring) :
  cleanContent (Some (cleanContent t)) = cleanContent t.
Proof.
  destruct t as [[|c s]|]; try reflexivity.
  change (cleanContent (Some (c :: s)))
    with (replace_ws_runs false (trim (c :: s))).
  destruct (replace_ws_runs false (trim (c :: s))) as [|x r] eqn:E;
    [reflexivity|].
  unfold cleanContent. rewrite <- E. apply normal_form_fixed.
Qed.

(** X11. generatePostUrl never returns the empty string, and for a container
    whose native identifier holds an activity URN it returns the update URL
    that ends with that identifier. *)
Theorem generatePostUrl_never_empty (h : Host) (postElement : option Element) :
  generatePostUrl h postElement <> []
  /\ (forall el getAttr v,
        postElement = Some el -> el_getAttribute el = Some getAttr ->
        native_identifier getAttr = Some v ->
        includes v (lit "urn:li:activity:") = true ->
        generatePostUrl h postElement
        = lit "https://www.linkedin.com/feed/update/" ++ v).
Proof.
  split.
  - unfold generatePostUrl.
    destruct (includes _ _); [discriminate|].
    destruct (location_href h) as [[|c u]|]; discriminate.
  - intros el getAttr v -> Hg Hn Hi. unfold generatePostUrl.
    assert (Hv : v <> []) by (intros ->; discriminate Hi).
    unfold generatePostId. rewrite Hg. unfold native_identifier in Hn.
    rewrite Hn. destruct v as [|c u]; [contradiction|].
    rewrite Hi. reflexivity.
Qed.

End ExtractorFacts.

Section TimeFacts.
Import PostExtractor Spec Fixtures.

Lemma digit_val_nonneg (c : N) : (0 <= digit_val c)%Z.
Proof. unfold digit_val. apply N2Z.is_nonneg. Qed.

Lemma fold_digits_nonneg (ds : jsstring) (a : Z) :
  (0 <= a)%Z ->
  (0 <= fold_left (fun acc c => 10 * acc + digit_val c) ds a)%Z.
Proof.
  revert a. induction ds as [|d r IH]; intros a Ha; cbn [fold_left];
    [exact Ha|].
  apply IH. pose proof (digit_val_nonneg d). lia.
Qed.

Lemma digits_value_nonneg (ds : jsstring) : (0 <= digits_value ds)%Z.
Proof. unfold digits_value. apply fold_digits_nonneg. lia. Qed.

Lemma toISOString_value (ms : Z) (t : timestamp) :
  toISOString ms = Ok t -> t = ISO ms.
Proof.
  unfold toISOString. destruct (Z.abs ms <=? 8640000000000000)%Z;
    intros H; inversion H; reflexivity.
Qed.

Lemma span_digits_no_digit (s : jsstring) :
  forallb (fun c => negb (is_digit c)) s = true ->
  fst (span_digits s) = [].
Proof.
  destruct s as [|c r]; [reflexivity|]. simpl.
  intros H. apply andb_prop in H. destruct H as [H _].
  apply negb_true_iff in H. now rewrite H.
Qed.

Lemma match_relative_no_digit (s : jsstring) :
  forallb (fun c => negb (is_digit c)) s = true ->
  match_relative s = None.
Proof.
  induction s as [|c r IH]; intros H.
  - reflexivity.
  - cbn [match_relative]. unfold match_here.
    rewrite span_digits_no_digit by exact H. cbn [List.length backtrack].
    apply IH. simpl in H. apply andb_prop in H. tauto.
Qed.

(** X12. parseRelativeTime never yields an instant after now, and a label
    without any digit is stamped with now. *)
Theorem parseRelativeTime_never_in_the_future (now : Z) (timeText : jsstring) :
  (forall t, parseRelativeTime now timeText = Ok t ->
             exists ms, t = ISO ms /\ (ms <= now)%Z)
  /\ (forallb (fun c => negb (is_digit c)) timeText = true ->
      parseRelativeTime now timeText = toISOString now).
Proof.
  split.
  - intros t. unfold parseRelativeTime.
    destruct (match_relative timeText) as [[digits letters]|].
    + pose proof (digits_value_nonneg digits) as Hv.
      repeat match goal with
             | |- context [if ?b then _ else _] => destruct b
             end;
        intros H; apply toISOString_value in H; eexists; split;
          try exact H; lia.
    + intros H. apply toISOString_value in H. eexists; split; [exact H|lia].
  - intros H. unfold parseRelativeTime.
    now rewrite match_relative_no_digit.
Qed.

End TimeFacts.

Section MetricFacts.
Import PostExtractor Spec Fixtures Terms.













End MetricFacts.

Section SelectorFacts.
Import LinkedInSelectors Terms.

Lemma first_match_nothing (container : Element) (selectors : list SelArg) :
  Forall (finds_nothing container) selectors ->
  first_match container selectors = Ok None.
Proof.
  induction 1 as [|s r Hs _ IH]; [reflexivity|].
  cbn [first_match]. unfold finds_nothing in Hs. rewrite Hs. exact IH.
Qed.

Lemma first_match_skips (container : Element) (before rest : list SelArg) :
  Forall (finds_nothing container) before ->
  first_match container (before ++ rest) = first_match container rest.
Proof.
  induction 1 as [|s r Hs _ IH]; [reflexivity|].
  cbn [app first_match]. unfold finds_nothing in Hs. rewrite Hs. exact IH.
Qed.

Lemma first_match_inv (container : Element) (selectors : list SelArg) :
  (first_match container selectors = Ok None
   /\ Forall (finds_nothing container) selectors)
  \/ (exists before s rest,
        selectors = before ++ s :: rest
        /\ Forall (finds_nothing container) before
        /\ el_querySelector container s = first_match container selectors
        /\ first_match container selectors <> Ok None).
Proof.
  induction selectors as [|s r IH].
  - left. split; [reflexivity|constructor].
  - cbn [first_match].
    destruct (el_querySelector container s) as [[e|]|err] eqn:Q; cbn [bind].
    + right. exists [], s, r. split; [reflexivity|]. split; [constructor|].
      split; [exact Q|discriminate].
    + destruct IH as [[H F]|[before [s' [rest [E [F [Hq Hn]]]]]]].
      * left. split; [exact H|]. constructor; assumption.
      * right. exists (s :: before), s', rest. subst r.
        split; [reflexivity|]. split; [constructor; assumption|].
        split; assumption.
    + right. exists [], s, r. split; [reflexivity|]. split; [constructor|].
      split; [exact Q|discriminate].
Qed.

(** X14. The loop of findElement returns the match of the first selector, in
    the order of the list, that matches; null when no selector matches; and
    it throws the first error of a query, when no earlier selector matched. *)
Theorem findElement_returns_the_first_match (container : Element)
        (selectors : list SelArg) (result : Exc (option Element)) :
  first_match container selectors = result <->
  (result = Ok None /\ Forall (finds_nothing container) selectors)
  \/ (exists before s rest,
        selectors = before ++ s :: rest
        /\ Forall (finds_nothing container) before
        /\ el_querySelector container s = result
        /\ result <> Ok None).
Proof.
  split.
  - intros <-. destruct (first_match_inv container selectors) as [H|H].
    + left. exact H.
    + right. exact H.
  - intros [[-> F]|[before [s [rest [-> [F [Hq Hn]]]]]]].
    + now apply first_match_nothing.
    + rewrite first_match_skips by exact F. cbn [first_match].
      rewrite Hq. destruct result as [[e|]|err]; cbn [bind];
        [reflexivity|now contradiction Hn|reflexivity].
Qed.

Lemma toInt32_range (z : Z) :
  (- 2147483648 <= toInt32 z < 2147483648)%Z.
Proof.
  unfold toInt32.
  pose proof (Z.mod_pos_bound (z + 2147483648) 4294967296 eq_refl). lia.
Qed.

Lemma toInt32_add_l (a b : Z) : toInt32 (toInt32 a + b) = toInt32 (a + b).
Proof.
  unfold toInt32. f_equal.
  replace ((a + 2147483648) mod 4294967296 - 2147483648 + b + 2147483648)%Z
    with ((a + 2147483648) mod 4294967296 + b)%Z by ring.
  rewrite Zplus_mod_idemp_l. f_equal. ring.
Qed.

Lemma toInt32_mul_r (k a b : Z) :
  toInt32 (k * toInt32 a + b) = toInt32 (k * a + b).
Proof.
  unfold toInt32. f_equal.
  replace (k * ((a + 2147483648) mod 4294967296 - 2147483648) + b
           + 2147483648)%Z
    with (k * ((a + 2147483648) mod 4294967296)
          + (b + 2147483648 - k * 2147483648))%Z by ring.
  rewrite <- Zplus_mod_idemp_l, Zmult_mod_idemp_r, Zplus_mod_idemp_l.
  f_equal. ring.
Qed.

Lemma hash_step_31 (hash : Z) (char : N) :
  hash_step hash char = toInt32 (31 * hash + Z.of_N char).
Proof.
  unfold hash_step.
  replace (toInt32 (hash * 32) - hash + Z.of_N char)%Z
    with (toInt32 (hash * 32) + (Z.of_N char - hash))%Z by ring.
  rewrite toInt32_add_l. f_equal. ring.
Qed.

Lemma fold_hash_step (str : jsstring) (a : Z) :
  fold_left hash_step str (toInt32 a)
  = toInt32 (fold_left (fun h c => (31 * h + Z.of_N c)%Z) str a).
Proof.
  revert a. induction str as [|c r IH]; intros a; cbn [fold_left];
    [reflexivity|].
  rewrite hash_step_31, toInt32_mul_r. apply IH.
Qed.

(** X15. The number that simpleHash prints in base 36 is the absolute value
    of the polynomial in 31 of the code units, reduced to a signed 32-bit
    integer: the shift, the subtraction and the bitwise and of each step
    lose nothing else. *)
Theorem simpleHash_is_the_polynomial_in_31 (str : jsstring) :
  fold_left hash_step str 0%Z = toInt32 (poly31 str)
  /\ simpleHash str = base36_of_N (Z.to_N (Z.abs (toInt32 (poly31 str))))
  /\ (Z.abs (toInt32 (poly31 str)) <= 2147483648)%Z.
Proof.
  assert (H : fold_left hash_step str 0%Z = toInt32 (poly31 str))
    by exact (fold_hash_step str 0).
  split; [exact H|]. split.
  - unfold simpleHash. now rewrite H.
  - pose proof (toInt32_range (poly31 str)). lia.
Qed.

End SelectorFacts.

Section FilterFacts.
Import DataFormatter DOMScanner Fixtures Cases.

Lemma postType_eqb_eq (a b : PostType) : postType_eqb a b = true -> a = b.
Proof. destruct a, b; simpl; congruence. Qed.

(** X16. A post that processBatch keeps passes every filter of the options. *)
Theorem kept_posts_pass_the_filters (env : Env) (o : ScanOptions)
        (el : Element) (pd : Post) :
  extract_one env o el = Ok (Some pd) ->
  extractPostData env el = Ok (Some pd)
  /\ (includeImages o = false ->
      exists m, p_media pd = Some m /\ images m = [])
  /\ (includeVideos o = false ->
      exists m, p_media pd = Some m /\ videos m = [])
  /\ (forall ts, postTypes o = Some ts -> In (p_postType pd) ts)
  /\ (forall c f, authorFilter o = Some (c :: f) ->
        exists a n,
          p_author pd = Some a /\ ad_name a = Some n
          /\ includes (lowerCase env n) (lowerCase env (c :: f)) = true).
Proof.
  unfold extract_one.
  destruct (extractPostData env el) as [[pd'|]|e]; cbn [bind];
    try discriminate.
  destruct (shouldIncludePost env pd' o) as [[|]|e] eqn:S; cbn [bind];
    try discriminate.
  intros H. inversion H. subst pd'. clear H. split; [reflexivity|].
  unfold shouldIncludePost, media_length, author_name in S.
  assert (Himg : includeImages o = false ->
                 exists m, p_media pd = Some m /\ images m = []).
  { intros E. rewrite E in S. destruct (p_media pd) as [m|]; [|discriminate].
    exists m. split; [reflexivity|]. cbn [bind] in S.
    destruct (images m); [reflexivity|]. discriminate. }
  split; [exact Himg|].
  assert (S2 :
    (has_unwanted_video <-
       (if includeVideos o then Ok false
        else n <- match p_media pd with
                  | Some media => Ok (List.length (videos media))
                  | None => Throw TypeError
                  end ;; Ok (0 <? n)%nat) ;;
     if has_unwanted_video then Ok false
     else if match postTypes o with
             | Some ts => negb (existsb (postType_eqb (p_postType pd)) ts)
             | None => false
             end
     then Ok false
     else match authorFilter o with
          | Some (c :: f) =>
              n <- match p_author pd with
                   | Some a => match ad_name a with
                               | Some n => Ok n
                               | None => Throw TypeError
                               end
                   | None => Throw TypeError
                   end ;;
              Ok (includes (lowerCase env n) (lowerCase env (c :: f)))
          | _ => Ok true
          end) = Ok true).
  { destruct (includeImages o); cbn [bind] in S; [exact S|].
    destruct (p_media pd) as [m|]; [|discriminate]. cbn [bind] in S.
    destruct (0 <? List.length (images m))%nat; [discriminate|exact S]. }
  clear S Himg.
  assert (Hvid : includeVideos o = false ->
                 exists m, p_media pd = Some m /\ videos m = []).
  { intros E. rewrite E in S2. destruct (p_media pd) as [m|]; [|discriminate].
    exists m. split; [reflexivity|]. cbn [bind] in S2.
    destruct (videos m); [reflexivity|]. discriminate. }
  split; [exact Hvid|].
  assert (S3 :
    (if match postTypes o with
        | Some ts => negb (existsb (postType_eqb (p_postType pd)) ts)
        | None => false
        end
     then Ok false
     else match authorFilter o with
          | Some (c :: f) =>
              n <- match p_author pd with
                   | Some a => match ad_name a with
                               | Some n => Ok n
                               | None => Throw TypeError
                               end
                   | None => Throw TypeError
                   end ;;
              Ok (includes (lowerCase env n) (lowerCase env (c :: f)))
          | _ => Ok true
          end) = Ok true).
  { destruct (includeVideos o); cbn [bind] in S2; [exact S2|].
    destruct (p_media pd) as [m|]; [|discriminate]. cbn [bind] in S2.
    destruct (0 <? List.length (videos m))%nat; [discriminate|exact S2]. }
  clear S2 Hvid. split.
  - intros ts E. rewrite E in S3.
    destruct (existsb (postType_eqb (p_postType pd)) ts) eqn:X;
      [|discriminate].
    apply existsb_exists in X. destruct X as [t [Hin Ht]].
    apply postType_eqb_eq in Ht. now subst t.
  - intros c f E. rewrite E in S3.
    destruct (match postTypes o with
              | Some ts => negb (existsb (postType_eqb (p_postType pd)) ts)
              | None => false
              end); [discriminate|].
    destruct (p_author pd) as [a|]; [|discriminate].
    destruct (ad_name a) as [n|] eqn:N; [|discriminate].
    cbn [bind] in S3. exists a, n. split; [reflexivity|].
    split; [exact N|]. now inversion S3.
Qed.

Lemma kept_posts_pass_the_filters_witness :
  In (p_postType a_post) [text].
Proof.
  exact (proj1 (proj2 (proj2 (proj2
    (kept_posts_pass_the_filters steady_env only_text_by_john
       (simple_post 1) a_post eq_refl)))) [text] eq_refl).
Defined.

End FilterFacts.

Section WordFacts.
Import DataFormatter.

Lemma words_from_nil (s cur : jsstring) :
  words_from cur s = [] <-> cur = [] /\ forallb is_ws s = true.
Proof.
  revert cur. induction s as [|c r IH]; intros cur; cbn [words_from forallb].
  - destruct cur; split; try tauto; try discriminate.
    intros [H _]. discriminate H.
  - destruct (is_ws c); cbn [andb].
    + destruct cur as [|x cur].
      * rewrite IH. tauto.
      * split; [discriminate|]. intros [H _]. discriminate H.
    + rewrite IH. split; [intros [H _]; discriminate H|intros [_ H]; discriminate H].
Qed.

Lemma trim_start_blank (s : jsstring) :
  forallb is_ws (trim_start s) = true -> forallb is_ws s = true.
Proof.
  induction s as [|c r IH]; [reflexivity|]. cbn [trim_start forallb].
  destruct (is_ws c) eqn:E; [exact IH|].
  cbn [forallb]. now rewrite E.
Qed.

Lemma trim_nil_iff (s : jsstring) : trim s = [] <-> forallb is_ws s = true.
Proof.
  unfold trim. rewrite trim_end_nil_iff. split; [apply trim_start_blank|].
  intros H. apply forallb_forall. intros c Hc.
  apply trim_start_incl in Hc. revert c Hc. now apply forallb_forall.
Qed.

(** X17. countWords is 0 exactly for a text that is empty or made of white
    space only. *)
Theorem countWords_zero_iff_blank (s : jsstring) :
  countWords s = 0%nat <-> forallb is_ws s = true.
Proof.
  destruct s as [|c r]; [simpl; tauto|].
  unfold countWords, words. rewrite length_zero_iff_nil, words_from_nil.
  split.
  - intros [_ H]. apply trim_nil_iff.
    destruct (trim_is_tight (c :: r)) as [_ He].
    rewrite <- He. now apply trim_end_nil_iff.
  - intros H. apply trim_nil_iff in H. rewrite H. split; reflexivity.
Qed.

End WordFacts.

Section Discovery.
Import DataFormatter DOMScanner Fixtures Terms.

Lemma key_in_iff (e : Element) (l : list Element) :
  key_in e l = true <-> In (el_key e) (keys l).
Proof.
  unfold key_in, keys. rewrite existsb_exists, in_map_iff. split.
  - intros [x [Hx Hk]]. apply Nat.eqb_eq in Hk. exists x. auto.
  - intros [x [Hk Hx]]. exists x. split; [exact Hx|]. now apply Nat.eqb_eq.
Qed.

Lemma add_posts_spec (page : Page) (sels : list SelArg) (s : SelArg)
      (foundPosts posts result : list Element) :
  In s sels -> incl foundPosts (page s) ->
  discovered page sels posts ->
  add_posts foundPosts posts = Ok result ->
  discovered page sels result
  /\ incl posts result
  /\ forall p, In p foundPosts -> isValidPost p = Ok true ->
               In (el_key p) (keys result).
Proof.
  intros Hs. revert posts.
  induction foundPosts as [|f r IH]; intros posts Hincl Hd H.
  - simpl in H. inversion H. subst. split; [exact Hd|].
    split; [apply incl_refl|]. intros p [].
  - cbn [add_posts] in H.
    assert (Hr : incl r (page s)) by (intros x Hx; apply Hincl; now right).
    destruct (key_in f posts) eqn:K.
    + destruct (IH posts Hr Hd H) as [Hd' [Hi Hc]].
      split; [exact Hd'|]. split; [exact Hi|].
      intros p [<-|Hp] Hv; [|now apply Hc].
      apply key_in_iff in K. unfold keys in *.
      apply in_map_iff in K. destruct K as [x [Hk Hx]].
      apply in_map_iff. exists x. split; [exact Hk|]. now apply Hi.
    + destruct (isValidPost f) as [valid|e] eqn:V; [|discriminate].
      cbn [bind] in H.
      assert (Hd2 : discovered page sels (if valid then posts ++ [f] else posts)).
      { destruct valid; [|exact Hd]. destruct Hd as [Hn Hp]. split.
        - unfold keys. rewrite map_app. simpl.
          apply NoDup_app; [exact Hn|constructor; [intros []|constructor]|].
          intros x Hx [Hx'|[]]. subst x.
          apply key_in_iff in Hx. congruence.
        - intros p Hin. apply in_app_or in Hin. destruct Hin as [Hin|[<-|[]]].
          + now apply Hp.
          + split; [exact V|]. exists s. split; [exact Hs|].
            apply Hincl. now left. }
      destruct (IH _ Hr Hd2 H) as [Hd' [Hi Hc]].
      split; [exact Hd'|]. split.
      * intros x Hx. apply Hi. destruct valid; [apply in_or_app; now left|exact Hx].
      * intros p [<-|Hp] Hv; [|now apply Hc].
        rewrite V in Hv. inversion Hv. subst valid.
        unfold keys. apply in_map. apply Hi. apply in_or_app. right. now left.
Qed.

Lemma for_post_selectors_spec (page : Page) (all : list SelArg) :
  forall (sels : list SelArg) (posts result : list Element),
    incl sels all ->
    discovered page all posts ->
    for_post_selectors page sels posts = Ok result ->
    discovered page all result
    /\ incl posts result
    /\ forall s p, In s sels -> In p (page s) -> isValidPost p = Ok true ->
                   In (el_key p) (keys result).
Proof.
  induction sels as [|s r IH]; intros posts result Hincl Hd H.
  - simpl in H. inversion H. subst. split; [exact Hd|].
    split; [apply incl_refl|]. intros s p [].
  - cbn [for_post_selectors] in H.
    destruct (add_posts (page s) posts) as [posts'|e] eqn:A; [|discriminate].
    cbn [bind] in H.
    destruct (add_posts_spec page all s (page s) posts posts'
                (Hincl s (or_introl eq_refl)) (incl_refl _) Hd A)
      as [Hd' [Hi Hc]].
    assert (Hr : incl r all) by (intros x Hx; apply Hincl; now right).
    destruct (IH posts' result Hr Hd' H) as [Hd'' [Hi' Hc']].
    split; [exact Hd''|]. split.
    + intros x Hx. apply Hi', Hi, Hx.
    + intros s' p [<-|Hs'] Hp Hv; [|now apply (Hc' s' p)].
      specialize (Hc p Hp Hv). unfold keys in *.
      apply in_map_iff in Hc. destruct Hc as [x [Hk Hx]].
      apply in_map_iff. exists x. split; [exact Hk|]. now apply Hi'.
Qed.

(** X18. findAllPosts returns each element once, only elements that pass
    isValidPost and that the page shows under a post selector, and it misses
    none of those. *)
Theorem findAllPosts_distinct_and_valid (page : Page)
        (posts : list Element) :
  findAllPosts page = Ok posts ->
  NoDup (map el_key posts)
  /\ (forall p, In p posts ->
        isValidPost p = Ok true
        /\ exists s, In s (LinkedInSelectors.getAllSelectors (lit "post") None)
                     /\ In p (page s))
  /\ (forall s p,
        In s (LinkedInSelectors.getAllSelectors (lit "post") None) ->
        In p (page s) -> isValidPost p = Ok true ->
        In (el_key p) (map el_key posts)).
Proof.
  intros H. unfold findAllPosts in H.
  destruct (for_post_selectors_spec page _ _ [] posts (incl_refl _)
              (conj (NoDup_nil _) (fun p (F : In p []) => match F with end)) H)
    as [[Hn Hp] [_ Hc]].
  split; [exact Hn|]. split; [exact Hp|exact Hc].
Qed.

Lemma findAllPosts_distinct_and_valid_witness :
  NoDup (map el_key three_posts).
Proof.
  exact (proj1 (findAllPosts_distinct_and_valid (page_of three_posts)
                  three_posts eq_refl)).
Defined.

End Discovery.

Section Batches.
Import DataFormatter DOMScanner ProgressInvariants Fixtures Terms.

Variable env : Env.
Variable o : ScanOptions.

Lemma isScanning_push (pd : Post) (s : Scanner) :
  isScanning (push pd s) = isScanning s.
Proof. reflexivity. Qed.

Lemma processBatch_stopped (l : list Element) (s : Scanner) :
  isScanning s = false -> processBatch env o l s = s.
Proof. intros H. destruct l; simpl; [reflexivity|]. now rewrite H. Qed.

Lemma processBatch_scanning (l : list Element) (s : Scanner) :
  isScanning (processBatch env o l s) = isScanning s.
Proof.
  revert s. induction l as [|e l IH]; intros s; simpl; [reflexivity|].
  destruct (isScanning s) eqn:Hs; simpl; [|exact Hs].
  destruct (extract_one env o e) as [[pd|]|]; try (rewrite IH; exact Hs).
  destruct (maxPosts o <=? extractedCount (push pd s))%Z; [exact Hs|].
  rewrite IH. exact Hs.
Qed.

Lemma processBatch_posts (l : list Element) :
  forall s,
    isScanning s = true ->
    extractedPosts (processBatch env o l s)
    = extractedPosts s ++ firstn (room o s) (yield_of env o l).
Proof.
  induction l as [|e l IH]; intros s Hs.
  - simpl. rewrite firstn_nil. now rewrite app_nil_r.
  - cbn [processBatch]. rewrite Hs. cbn [negb].
    unfold yield_of. cbn [flat_map]. fold (yield_of env o l).
    destruct (extract_one env o e) as [[pd|]|err].
    + pose proof (extractedCount_push pd s) as Hp.
      destruct (maxPosts o <=? extractedCount (push pd s))%Z eqn:Hm.
      * apply Z.leb_le in Hm.
        assert (Hr : room o s = 1%nat) by (unfold room; lia).
        rewrite Hr. cbn [app firstn]. reflexivity.
      * apply Z.leb_gt in Hm.
        rewrite (IH (push pd s) Hs).
        assert (Hr : room o s = S (room o (push pd s))) by (unfold room; lia).
        rewrite Hr. cbn [app firstn]. unfold push at 1. cbn [extractedPosts].
        now rewrite <- app_assoc.
    + cbn [app]. apply IH. exact Hs.
    + cbn [app]. apply IH. exact Hs.
Qed.

(** X19. processBatch appends to the extracted posts, in the order of the
    batch, the posts that its elements yield, up to the room left under
    maxPosts; elements whose extraction fails are skipped; and a scanner
    that is not scanning is left as it is. *)
Theorem processBatch_appends_in_order (l : list Element) (s : Scanner) :
  (isScanning s = true ->
     extractedPosts (processBatch env o l s)
     = extractedPosts s ++ firstn (room o s) (yield_of env o l))
  /\ (isScanning s = false -> processBatch env o l s = s)
  /\ scanProgress (processBatch env o l s) = scanProgress s
  /\ isScanning (processBatch env o l s) = isScanning s.
Proof.
  split; [apply processBatch_posts|].
  split; [apply processBatch_stopped|].
  split; [apply processBatch_progress|apply processBatch_scanning].
Qed.

Lemma processBatch_below (l : list Element) (s : Scanner) :
  (extractedCount s < maxPosts o)%Z ->
  (extractedCount (processBatch env o l s) <= maxPosts o)%Z.
Proof.
  revert s. induction l as [|e l IH]; intros s H; simpl; [lia|].
  destruct (isScanning s); simpl; [|lia].
  destruct (extract_one env o e) as [[pd|]|]; try (apply IH; exact H).
  pose proof (extractedCount_push pd s) as Hp.
  destruct (maxPosts o <=? extractedCount (push pd s))%Z eqn:Hm; [lia|].
  apply Z.leb_gt in Hm. apply IH. exact Hm.
Qed.

Lemma processBatch_origin (k : nat) (posts : list Element) :
  findAllPosts (page_at env k) = Ok posts ->
  forall l s,
    incl l posts ->
    Forall (from_the_page env o) (extractedPosts s) ->
    Forall (from_the_page env o) (extractedPosts (processBatch env o l s)).
Proof.
  intros Hk. induction l as [|e l IH]; intros s Hi Hf; simpl; [exact Hf|].
  assert (Hl : incl l posts) by (intros x Hx; apply Hi; now right).
  destruct (isScanning s); simpl; [|exact Hf].
  destruct (extract_one env o e) as [[pd|]|] eqn:He; try (apply IH; assumption).
  assert (Hf' : Forall (from_the_page env o) (extractedPosts (push pd s))).
  { unfold push. cbn [extractedPosts]. apply Forall_app. split; [exact Hf|].
    constructor; [|constructor]. exists k, posts, e.
    split; [exact Hk|]. split; [apply Hi; now left|exact He]. }
  destruct (maxPosts o <=? extractedCount (push pd s))%Z; [exact Hf'|].
  apply IH; assumption.
Qed.

Lemma kept_same (r r' : Run) :
  extractedPosts (scanner r') = extractedPosts (scanner r) ->
  kept env o r -> kept env o r'.
Proof.
  intros H [H1 H2]. unfold kept, extractedCount in *. rewrite H. auto.
Qed.

Lemma kept_batch (k : nat) (posts l : list Element) (r : Run) :
  findAllPosts (page_at env k) = Ok posts -> incl l posts ->
  (extractedCount (scanner r) < maxPosts o)%Z ->
  kept env o r ->
  kept env o (set_scanner (processBatch env o l (scanner r)) r).
Proof.
  intros Hk Hi Hlt [H1 H2]. split; cbn [scanner set_scanner].
  - pose proof (processBatch_below l (scanner r) Hlt). lia.
  - eapply processBatch_origin; eauto.
Qed.

Lemma In_skipn_In {A} (n : nat) (l : list A) (x : A) :
  In x (skipn n l) -> In x l.
Proof.
  revert l. induction n as [|n IH]; intros [|a l]; simpl; try tauto.
  intros H. right. now apply IH.
Qed.

Lemma kept_await (r : Run) : kept env o r -> kept env o (await env r).
Proof. apply kept_same. apply await_posts. Qed.

Lemma kept_batches (k : nat) (initialPosts : list Element) :
  findAllPosts (page_at env k) = Ok initialPosts ->
  forall n i r, kept env o r -> kept env o (batches env o initialPosts n i r).
Proof.
  intros Hk. induction n as [|n IH]; intros i r Hr; [exact Hr|].
  cbn [batches].
  destruct ((i <? List.length initialPosts)%nat
            && (extractedCount (scanner r) <? maxPosts o)%Z) eqn:C;
    [|exact Hr].
  apply andb_prop in C. destruct C as [_ C]. apply Z.ltb_lt in C.
  apply IH. apply kept_await.
  eapply kept_same; [|eapply (kept_batch k initialPosts); eauto].
  - reflexivity.
  - intros x Hx. apply In_firstn in Hx. now apply In_skipn_In in Hx.
Qed.

Lemma kept_loadMore :
  forall fuel sa lpc r,
    kept env o r -> kept env o (run_of (loadMoreLoop env o fuel sa lpc r)).
Proof.
  induction fuel as [|fuel IH]; intros sa lpc r Hr; [exact Hr|].
  cbn [loadMoreLoop].
  destruct ((sa <? maxScrollAttempts)%nat
            && (extractedCount (scanner r) <? maxPosts o)%Z
            && isScanning (scanner r)) eqn:C; [|exact Hr].
  apply andb_prop in C. destruct C as [C _].
  apply andb_prop in C. destruct C as [_ C]. apply Z.ltb_lt in C.
  destruct (findAllPosts (page_at env (looks (await env r))))
    as [newPosts|e] eqn:Hfind.
  - destruct (skipn lpc newPosts) as [|x rest] eqn:Hskip.
    + apply IH. eapply kept_same; [|exact Hr].
      unfold looked. cbn [scanner]. apply await_posts.
    + apply IH.
      assert (Hk2 : kept env o (looked (await env r))).
      { eapply kept_same; [|exact Hr]. unfold looked. cbn [scanner].
        apply await_posts. }
      assert (Hc2 : (extractedCount (scanner (looked (await env r)))
                     < maxPosts o)%Z).
      { unfold looked, extractedCount. cbn [scanner]. rewrite await_posts.
        exact C. }
      eapply kept_same;
        [|eapply (kept_batch _ newPosts (x :: rest)); eauto].
      * reflexivity.
      * rewrite <- Hskip. intros y Hy. now apply In_skipn_In in Hy.
  - cbn [run_of]. eapply kept_same; [|exact Hr].
    unfold looked. cbn [scanner]. apply await_posts.
Qed.

End Batches.

Section Limits.
Import DataFormatter DOMScanner ProgressInvariants Fixtures Terms.

Lemma kept_scan (env : Env) (options : Options) (fuel : nat) (r : Run) :
  extractedPosts (scanner r) = [] ->
  extractedPosts (scanner (run_of (scan env options fuel r))) = []
  \/ exists prefs,
       getSettings env = Ok (Some prefs)
       /\ kept env (mergeOptions options prefs)
            (run_of (scan env options fuel r)).
Proof.
  intros He. unfold scan.
  destruct (getSettings env) as [[prefs|]|e] eqn:Hset;
    try (left; cbn [run_of]; rewrite await_posts; exact He).
  set (o := mergeOptions options prefs).
  set (r1 := dispatch (scanStarted o) (await env r)).
  assert (He1 : extractedPosts (scanner r1) = []).
  { unfold r1. cbn [dispatch scanner]. rewrite await_posts. exact He. }
  destruct (findAllPosts (page_at env (looks r1))) as [initialPosts|e] eqn:Hf;
    [|left; exact He1].
  right. exists prefs. split; [reflexivity|].
  set (r2 := set_total (Z.min (Z.of_nat (List.length initialPosts))
                              (maxPosts o)) (looked r1)).
  assert (K2 : kept env o r2).
  { split.
    - unfold extractedCount. change (extractedPosts (scanner r2))
        with (extractedPosts (scanner r1)). rewrite He1. simpl. lia.
    - change (extractedPosts (scanner r2)) with (extractedPosts (scanner r1)).
      rewrite He1. constructor. }
  pose proof (kept_batches env o _ _ Hf (List.length initialPosts) 0 r2 K2)
    as K3.
  set (r3 := batches env o initialPosts (List.length initialPosts) 0 r2) in *.
  assert (K4 : kept env o
            (run_of (if scrollToLoad o
                        && (extractedCount (scanner r3) <? maxPosts o)%Z
                     then loadMorePosts env o fuel r3 else Done r3))).
  { destruct (scrollToLoad o && (extractedCount (scanner r3) <? maxPosts o)%Z).
    - unfold loadMorePosts. apply kept_loadMore. exact K3.
    - exact K3. }
  destruct (if scrollToLoad o && (extractedCount (scanner r3) <? maxPosts o)%Z
            then loadMorePosts env o fuel r3 else Done r3) as [r4|e r4|r4];
    cbn [run_of] in K4 |- *; try exact K4.
  destruct (savePosts env (extractedPosts (scanner r4))); cbn [run_of].
  - eapply kept_same; [|exact K4]. cbn [dispatch scanner]. apply await_posts.
  - eapply kept_same; [|exact K4]. apply await_posts.
Qed.

Lemma startScan_posts (env : Env) (options : Options) (fuel : nat)
      (s : Scanner) :
  isScanning s = false ->
  extractedPosts (scanner (snd (startScan env options fuel s)))
  = extractedPosts
      (scanner (run_of (scan env options fuel
                          (mkRun (mkScanner true (scanProgress s) []) [] 0 0)))).
Proof.
  intros H. unfold startScan. rewrite H.
  destruct (scan env options fuel _); reflexivity.
Qed.

(** X20. A scan never holds more posts than maxPosts, and every post it holds
    was yielded by an element that one of its looks at the page found. *)
Theorem scan_respects_maxPosts (env : Env) (options : Options) (fuel : nat)
        (s : Scanner) :
  isScanning s = false ->
  extractedPosts (scanner (snd (startScan env options fuel s))) = []
  \/ exists prefs,
       getSettings env = Ok (Some prefs)
       /\ (extractedCount (scanner (snd (startScan env options fuel s)))
           <= Z.max 0 (maxPosts (mergeOptions options prefs)))%Z
       /\ Forall (from_the_page env (mergeOptions options prefs))
            (extractedPosts (scanner (snd (startScan env options fuel s)))).
Proof.
  intros H. unfold extractedCount.
  rewrite (startScan_posts env options fuel s H).
  destruct (kept_scan env options fuel
              (mkRun (mkScanner true (scanProgress s) []) [] 0 0) eq_refl)
    as [E|[prefs [Hs [K1 K2]]]]; [now left|right].
  exists prefs. split; [exact Hs|]. split; [exact K1|exact K2].
Qed.

Lemma scan_respects_maxPosts_witness :
  (extractedCount (scanner (snd (startScan steady_env no_options 10 idle)))
   <=? 100)%Z = true.
Proof.
  apply Z.leb_le.
  destruct (scan_respects_maxPosts steady_env no_options 10 idle eq_refl)
    as [E|[prefs [Hs [K _]]]].
  - unfold extractedCount. rewrite E. simpl. lia.
  - inversion Hs. subst prefs. exact K.
Defined.

End Limits.

Section Stopping.
Import DataFormatter DOMScanner ProgressInvariants Fixtures Terms Cases.

Lemma await_stays_stopped (env : Env) (r : Run) :
  isScanning (scanner r) = false -> isScanning (scanner (await env r)) = false.
Proof.
  intros H. unfold await, stopScan. cbn [scanner].
  destruct (stop_requested env (awaits r)); [|exact H].
  rewrite H. exact H.
Qed.

Lemma batches_stopped (env : Env) (o : ScanOptions)
      (initialPosts : list Element) :
  forall n i r,
    isScanning (scanner r) = false ->
    extractedPosts (scanner (batches env o initialPosts n i r))
    = extractedPosts (scanner r)
    /\ isScanning (scanner (batches env o initialPosts n i r)) = false.
Proof.
  induction n as [|n IH]; intros i r H; [split; [reflexivity|exact H]|].
  cbn [batches].
  destruct ((i <? List.length initialPosts)%nat
            && (extractedCount (scanner r) <? maxPosts o)%Z);
    [|split; [reflexivity|exact H]].
  rewrite (processBatch_stopped env o _ _ H).
  set (r3 := await env (report (set_scanner (scanner r) r))).
  assert (H3 : isScanning (scanner r3) = false)
    by (apply await_stays_stopped; exact H).
  destruct (IH (i + batchSize)%nat r3 H3) as [E1 E2].
  split; [|exact E2]. rewrite E1. unfold r3. now rewrite await_posts.
Qed.

Lemma loadMoreLoop_stopped (env : Env) (o : ScanOptions) (fuel sa lpc : nat)
      (r : Run) :
  isScanning (scanner r) = false ->
  loadMoreLoop env o (S fuel) sa lpc r = Done r.
Proof.
  intros H. cbn [loadMoreLoop]. rewrite H. now rewrite andb_false_r.
Qed.

(** X21. A scan that is stopped during its first wait, the one for the
    settings, extracts nothing: whatever the page shows, it ends with no post
    and a scanner that is not scanning, it does not keep running, and if it
    resolves it resolves with no post. *)
Theorem stopped_scan_extracts_nothing_more (env : Env) (options : Options)
        (fuel : nat) (s : Scanner) :
  isScanning s = false -> stop_requested env 0 = true ->
  extractedPosts (scanner (snd (startScan env options (S fuel) s))) = []
  /\ isScanning (scanner (snd (startScan env options (S fuel) s))) = false
  /\ fst (startScan env options (S fuel) s) <> Pending
  /\ (forall posts, fst (startScan env options (S fuel) s) = Resolved posts ->
                    posts = []).
Proof.
  intros Hs Hstop. unfold startScan. rewrite Hs.
  set (r := mkRun (mkScanner true (scanProgress s) []) [] 0 0).
  assert (H0 : isScanning (scanner (await env r)) = false).
  { unfold await. cbn [awaits r]. rewrite Hstop. reflexivity. }
  assert (E0 : extractedPosts (scanner (await env r)) = [])
    by (rewrite await_posts; reflexivity).
  unfold scan.
  destruct (getSettings env) as [[prefs|]|e];
    try (cbn [fst snd not_scanning dispatch scanner set_scanner extractedPosts
              isScanning]; rewrite E0;
         repeat split; try discriminate).
  set (o := mergeOptions options prefs).
  set (r1 := dispatch (scanStarted o) (await env r)).
  change (isScanning (scanner (await env r)))
    with (isScanning (scanner r1)) in H0.
  change (extractedPosts (scanner (await env r)))
    with (extractedPosts (scanner r1)) in E0.
  destruct (findAllPosts (page_at env (looks r1))) as [initialPosts|e];
    [|cbn [fst snd not_scanning dispatch scanner set_scanner extractedPosts
           isScanning]; rewrite E0; repeat split; discriminate].
  set (r2 := set_total (Z.min (Z.of_nat (List.length initialPosts))
                              (maxPosts o)) (looked r1)).
  assert (H2 : isScanning (scanner r2) = false) by exact H0.
  destruct (batches_stopped env o initialPosts (List.length initialPosts) 0
              r2 H2) as [E3 H3].
  change (extractedPosts (scanner r2)) with (extractedPosts (scanner r1)) in E3.
  rewrite E0 in E3.
  set (r3 := batches env o initialPosts (List.length initialPosts) 0 r2) in *.
  assert (Hmore : (if scrollToLoad o
                      && (extractedCount (scanner r3) <? maxPosts o)%Z
                   then loadMorePosts env o (S fuel) r3 else Done r3)
                  = Done r3).
  { destruct (scrollToLoad o && (extractedCount (scanner r3) <? maxPosts o)%Z);
      [|reflexivity].
    unfold loadMorePosts. apply loadMoreLoop_stopped. exact H3. }
  rewrite Hmore. rewrite E3.
  destruct (savePosts env []) as [u|e];
    cbn [fst snd not_scanning dispatch scanner set_scanner extractedPosts
         isScanning]; rewrite await_posts, E3; repeat split;
    try discriminate.
  intros posts H. inversion H. reflexivity.
Qed.

Lemma stopped_scan_extracts_nothing_more_witness :
  extractedPosts (scanner (snd (startScan stopped_at_once no_options 3 idle)))
  = []
  /\ isScanning (scanner (snd (startScan stopped_at_once no_options 3 idle)))
     = false.
Proof.
  destruct (stopped_scan_extracts_nothing_more stopped_at_once no_options 2
              idle eq_refl eq_refl) as [H1 [H2 _]].
  split; [exact H1|exact H2].
Defined.

Lemma scan_done (env : Env) (options : Options) (fuel : nat) (r r' : Run) :
  scan env options fuel r = Done r' ->
  hd_error (events r') = Some (scanCompleted (extractedPosts (scanner r')))
  /\ savePosts env (extractedPosts (scanner r')) = Ok tt.
Proof.
  unfold scan.
  destruct (getSettings env) as [[prefs|]|e]; try discriminate.
  destruct (findAllPosts _) as [initialPosts|e]; [|discriminate].
  match goal with
  | |- context [match ?m with Done _ => _ | Failed _ _ => _ | Unfinished _ => _ end] =>
      destruct m as [r4|e r4|r4]; try discriminate
  end.
  destruct (savePosts env (extractedPosts (scanner r4))) as [[]|e] eqn:S;
    [|discriminate].
  intros H. inversion H. subst r'. cbn [dispatch events scanner hd_error].
  split; [reflexivity|]. rewrite await_posts. exact S.
Qed.

(** X22. When a scan started on an idle scanner settles, the scanner is no
    longer scanning.  When it resolves, it resolves with the scanner's
    extracted posts, these were handed to savePosts in one call that
    succeeded, and the last event is scanCompleted with them.  When it is
    rejected, the last event is scanError with the error. *)
Theorem startScan_settles (env : Env) (options : Options) (fuel : nat)
        (s : Scanner) :
  isScanning s = false ->
  (forall posts,
      fst (startScan env options fuel s) = Resolved posts ->
      isScanning (scanner (snd (startScan env options fuel s))) = false
      /\ extractedPosts (scanner (snd (startScan env options fuel s))) = posts
      /\ savePosts env posts = Ok tt
      /\ hd_error (events (snd (startScan env options fuel s)))
         = Some (scanCompleted posts))
  /\ (forall e,
        fst (startScan env options fuel s) = Rejected e ->
        isScanning (scanner (snd (startScan env options fuel s))) = false
        /\ hd_error (events (snd (startScan env options fuel s)))
           = Some (scanError e)).
Proof.
  intros Hs. unfold startScan. rewrite Hs.
  destruct (scan env options fuel _) as [r|e r|r] eqn:Hscan;
    cbn [fst snd]; split; try (intros x Hx; discriminate Hx).
  - intros posts H. inversion H. subst posts.
    destruct (scan_done _ _ _ _ _ Hscan) as [He Hsave].
    repeat split; assumption.
  - intros e' H. inversion H. subst e'. split; reflexivity.
Qed.

Lemma startScan_settles_witness :
  savePosts steady_env [a_post] = Ok tt.
Proof.
  exact (proj1 (proj2 (proj2
    (proj1 (startScan_settles steady_env no_options 10 idle eq_refl)
       [a_post] eq_refl)))).
Defined.

End Stopping.

Section StorageFacts.
Import DataFormatter DOMScanner Storage Wiring Fixtures Terms Cases.

Lemma str_eqb_sym (a b : jsstring) : str_eqb a b = str_eqb b a.
Proof.
  revert b. induction a as [|x a IH]; intros [|y b]; simpl; try reflexivity.
  unfold char_eqb. now rewrite N.eqb_sym, IH.
Qed.

Lemma str_eqb_refl (a : jsstring) : str_eqb a a = true.
Proof.
  induction a as [|x a IH]; simpl; [reflexivity|].
  unfold char_eqb. now rewrite N.eqb_refl, IH.
Qed.

Lemma duplicates_sym (p q : Post) : duplicates p q = duplicates q p.
Proof.
  unfold duplicates, same_id.
  rewrite (str_eqb_sym (p_url q) (p_url p)).
  destruct (p_id p), (p_id q); try reflexivity.
  now rewrite str_eqb_sym.
Qed.

Lemma duplicates_refl (p : Post) : duplicates p p = true.
Proof.
  unfold duplicates. now rewrite str_eqb_refl, orb_true_r.
Qed.

Lemma distinct_snoc (l : list Post) (post : Post) :
  distinct l -> existsb (duplicates post) l = false ->
  distinct (l ++ [post]).
Proof.
  induction l as [|p r IH]; simpl.
  - auto.
  - intros [H1 H2] H. apply orb_false_iff in H. destruct H as [Hp Hr].
    split; [|now apply IH].
    rewrite existsb_app, H1. simpl.
    now rewrite duplicates_sym, Hp.
Qed.

Lemma get_set_same {A} (st st' : Store) (key : Key A) (v : A)
      (d : option A) (t : StorageType) :
  (forall o a, read key (write key o a) = o) ->
  (forall o a, accepts (write key o a) = accepts a) ->
  set st key v t = Ok st' -> get st' key d t = Ok (Some v).
Proof.
  intros Hr Ha. unfold set, get, area_of, with_area.
  destruct t; cbn [is_local];
    match goal with
    | |- context [accepts ?a] => destruct (accepts a) eqn:E
    end; try discriminate;
    intros H; inversion H; subst st'; cbn [local_area sync_area];
      rewrite Ha, E, Hr; reflexivity.
Qed.

Lemma getPosts_inv (st : Store) (r : option (list Post)) :
  getPosts st = Ok r ->
  accepts (local_area st) = true
  /\ r = Some (match item_posts (local_area st) with
               | Some l => l
               | None => []
               end).
Proof.
  unfold getPosts, get, area_of. cbn [is_local].
  destruct (accepts (local_area st)); [|discriminate].
  intros H. inversion H. split; [reflexivity|].
  cbn [read key_posts]. destruct (item_posts (local_area st)); reflexivity.
Qed.

Lemma set_posts (st : Store) (l : list Post) :
  accepts (local_area st) = true ->
  exists st',
    set st key_posts l type_local = Ok st'
    /\ getPosts st' = Ok (Some l)
    /\ sync_area st' = sync_area st
    /\ set st' key_posts l type_local = Ok st'.
Proof.
  intros Ha. unfold set, getPosts, get, area_of, with_area. cbn [is_local].
  rewrite Ha. eexists. split; [reflexivity|].
  cbn [local_area sync_area write read key_posts accepts item_posts
       item_settings item_postsCache item_exportHistory].
  rewrite Ha. repeat split.
Qed.

(** X23. addPost keeps the stored posts free of duplicates: it appends the
    post unless a stored post has its id or its URL, keeps what was stored
    in place, and adding the same post again changes nothing. *)
Theorem addPost_keeps_posts_distinct (st st' : Store) (post : Post) :
  addPost st post = Ok st' ->
  exists l l',
    getPosts st = Ok (Some l)
    /\ getPosts st' = Ok (Some l')
    /\ (l' = l \/ l' = l ++ [post])
    /\ (distinct l -> distinct l')
    /\ existsb (duplicates post) l' = true
    /\ addPost st' post = Ok st'.
Proof.
  unfold addPost.
  destruct (getPosts st) as [existing|e] eqn:G; [|discriminate].
  cbn [bind]. destruct (getPosts_inv _ _ G) as [Ha ->].
  set (l := match item_posts (local_area st) with Some l => l | None => [] end).
  destruct (existsb (duplicates post) l) eqn:D; cbn [negb].
  - destruct (set_posts st l Ha) as [st1 [S1 [G1 [_ S2]]]].
    rewrite S1. intros H. inversion H. subst st'.
    exists l, l. split; [reflexivity|]. split; [exact G1|].
    split; [now left|]. split; [auto|]. split; [exact D|].
    rewrite G1. cbn [bind]. rewrite D. exact S2.
  - destruct (set_posts st (l ++ [post]) Ha) as [st1 [S1 [G1 [_ S2]]]].
    rewrite S1. intros H. inversion H. subst st'.
    exists l, (l ++ [post]). split; [reflexivity|]. split; [exact G1|].
    split; [now right|]. split; [intros Hd; now apply distinct_snoc|].
    assert (D' : existsb (duplicates post) (l ++ [post]) = true).
    { rewrite existsb_app. simpl. rewrite duplicates_refl.
      now rewrite orb_true_r. }
    split; [exact D'|].
    rewrite G1. cbn [bind]. rewrite D'. exact S2.
Qed.

Lemma addPost_keeps_posts_distinct_witness :
  exists l l',
    getPosts empty_store = Ok (Some l)
    /\ getPosts (mkStore (mkArea None (Some [a_post]) None None true)
                         empty_area) = Ok (Some l')
    /\ (l' = l \/ l' = l ++ [a_post])
    /\ (distinct l -> distinct l')
    /\ existsb (duplicates a_post) l' = true
    /\ addPost (mkStore (mkArea None (Some [a_post]) None None true)
                        empty_area) a_post
       = Ok (mkStore (mkArea None (Some [a_post]) None None true) empty_area).
Proof.
  exact (addPost_keeps_posts_distinct empty_store _ a_post eq_refl).
Defined.

(** X24. What savePosts stores is what getPosts returns afterwards, until
    clearPosts; getCachedPosts does not see it: it reads another key, in the
    other storage area. *)
Theorem savePosts_getPosts_round_trip (st st' : Store) (posts : list Post) :
  savePosts st posts = Ok st' ->
  getPosts st' = Ok (Some posts)
  /\ getCachedPosts st' = getCachedPosts st
  /\ sync_area st' = sync_area st
  /\ fst (clearPosts st') = true
  /\ getPosts (snd (clearPosts st')) = Ok (Some []).
Proof.
  unfold savePosts, set, area_of, with_area. cbn [is_local].
  destruct (accepts (local_area st)) eqn:Ha; [|discriminate].
  intros H. inversion H. subst st'. clear H.
  unfold getPosts, getCachedPosts, clearPosts, remove, get, area_of, with_area.
  cbn [is_local local_area sync_area write read key_posts accepts item_posts
       fst snd].
  rewrite Ha.
  cbn [is_local local_area sync_area write read key_posts accepts item_posts
       fst snd].
  rewrite ?Ha. repeat split.
Qed.

Lemma savePosts_getPosts_round_trip_witness :
  getPosts (mkStore (mkArea None (Some [a_post]) None None true) empty_area)
  = Ok (Some [a_post]).
Proof.
  exact (proj1 (savePosts_getPosts_round_trip empty_store _ [a_post] eq_refl)).
Defined.

Lemma truncated (l : list ExportEntry) :
  (if (historyLimit <? List.length l)%nat then firstn historyLimit l else l)
  = firstn historyLimit l.
Proof.
  destruct (historyLimit <? List.length l)%nat eqn:E; [reflexivity|].
  apply Nat.ltb_ge in E. symmetry. now apply firstn_all2.
Qed.

Lemma addExportHistory_inv (st st' : Store) info iso now :
  addExportHistory st info iso now = Ok st' ->
  exists old,
    getExportHistory st = Ok (Some old)
    /\ getExportHistory st'
       = Ok (Some (firstn historyLimit (mkExportEntry info iso now :: old)))
    /\ local_area st' = local_area st.
Proof.
  unfold addExportHistory, getExportHistory, get, set, area_of, with_area.
  cbn [is_local].
  destruct (accepts (sync_area st)) eqn:Ha; [|discriminate].
  cbn [bind read key_exportHistory].
  set (old := match item_exportHistory (sync_area st) with
              | Some l => l | None => [] end).
  assert (E : match item_exportHistory (sync_area st) with
              | Some v => Some v | None => Some [] end = Some old)
    by (unfold old; destruct (item_exportHistory (sync_area st)); reflexivity).
  rewrite E. rewrite truncated. intros H. inversion H. subst st'.
  exists old. split; [reflexivity|].
  cbn [local_area sync_area write key_exportHistory accepts
       item_exportHistory].
  rewrite Ha. split; reflexivity.
Qed.

Lemma firstn_app_firstn {A} (n : nat) (a b : list A) :
  firstn n (a ++ firstn n b) = firstn n (a ++ b).
Proof.
  rewrite !firstn_app, firstn_firstn. do 2 f_equal. lia.
Qed.

Lemma add_all_history :
  forall calls st st' old,
    getExportHistory st = Ok (Some old) ->
    (List.length old <= historyLimit)%nat ->
    add_all st calls = Ok st' ->
    getExportHistory st'
    = Ok (Some (firstn historyLimit (rev calls ++ old)))
    /\ local_area st' = local_area st.
Proof.
  induction calls as [|c rest IH]; intros st st' old G Hl H.
  - simpl in H. inversion H. subst st'. rewrite G.
    cbn [rev app]. rewrite firstn_all2 by exact Hl. split; reflexivity.
  - cbn [add_all] in H.
    destruct (addExportHistory st (exportInfo c) (entry_timestamp c)
                (entry_id c)) as [st1|e] eqn:A; [|discriminate].
    cbn [bind] in H.
    destruct (addExportHistory_inv _ _ _ _ _ A) as [old' [G0 [G1 L1]]].
    rewrite G in G0. inversion G0. subst old'.
    assert (Ec : mkExportEntry (exportInfo c) (entry_timestamp c) (entry_id c)
                 = c) by (destruct c; reflexivity).
    rewrite Ec in G1.
    destruct (IH _ _ _ G1 (firstn_le_length _ _) H) as [G2 L2].
    split; [|congruence].
    rewrite G2. do 2 f_equal. rewrite firstn_app_firstn.
    cbn [rev]. now rewrite <- app_assoc.
Qed.

(** X25. The export history holds the most recent 50 entries, the newest
    first, however many are added; and the class keeps it in the sync area,
    the local area is not written. *)
Theorem export_history_is_the_last_fifty (calls : list ExportEntry)
        (st st' : Store) (old : list ExportEntry) :
  getExportHistory st = Ok (Some old) ->
  (List.length old <= 50)%nat ->
  add_all st calls = Ok st' ->
  getExportHistory st' = Ok (Some (firstn 50 (rev calls ++ old)))
  /\ (List.length (firstn 50 (rev calls ++ old)) <= 50)%nat
  /\ local_area st' = local_area st.
Proof.
  intros G Hl H.
  destruct (add_all_history calls st st' old G Hl H) as [G' L].
  split; [exact G'|]. split; [apply firstn_le_length|exact L].
Qed.

Lemma export_history_is_the_last_fifty_witness :
  exists st',
    add_all empty_store two_exports = Ok st'
    /\ getExportHistory st' = Ok (Some (rev two_exports)).
Proof.
  eexists. split; [reflexivity|].
  refine (proj1 (export_history_is_the_last_fifty two_exports empty_store _ []
                   eq_refl _ eq_refl)).
  simpl. lia.
Defined.

End StorageFacts.

Section SettingsFacts.
Import DataFormatter DOMScanner Storage Wiring Fixtures Terms Cases.

Lemma lookup_In (k : jsstring) (v : scalar) (l : list (jsstring * scalar)) :
  In (k, v) l -> lookup k l <> None.
Proof.
  induction l as [|[k' v'] r IH]; [intros []|].
  intros [H|H]; cbn [lookup].
  - inversion H. subst. now rewrite str_eqb_refl.
  - destruct (str_eqb k k'); [discriminate|now apply IH].
Qed.

(** X26. Settings that saveSettings stored are what getSettings returns: the
    caller's members, every default member that the caller did not give,
    and the caller's scanning preferences, of which there is no default. *)
Theorem saveSettings_getSettings_round_trip (st st' : Store)
        (settings : Settings) :
  saveSettings st settings = Ok st' ->
  exists stored,
    getSettings st' = Ok (stored, st')
    /\ (forall k, flat stored k
                  = match flat settings k with
                    | Some v => Some v
                    | None => lookup k default_members
                    end)
    /\ (forall k v, In (k, v) default_members -> flat stored k <> None)
    /\ scanningPreferences stored = scanningPreferences settings.
Proof.
  unfold saveSettings, set, area_of, with_area. cbn [is_local].
  destruct (accepts (sync_area st)) eqn:Ha; [|discriminate].
  intros H. inversion H. subst st'. clear H.
  exists (spread defaultSettings settings).
  unfold getSettings, get, area_of.
  cbn [is_local sync_area write read key_settings accepts item_settings].
  rewrite Ha. cbn [bind]. split; [reflexivity|].
  split; [reflexivity|]. split.
  - intros k v Hin. cbn [spread flat defaultSettings].
    destruct (flat settings k); [discriminate|]. eapply lookup_In, Hin.
  - cbn [spread scanningPreferences defaultSettings].
    destruct (scanningPreferences settings); reflexivity.
Qed.

Lemma saveSettings_getSettings_round_trip_witness :
  exists stored,
    getSettings (mkStore empty_area
                   (mkArea (Some (spread defaultSettings custom_settings))
                           None None None true))
    = Ok (stored,
          mkStore empty_area
            (mkArea (Some (spread defaultSettings custom_settings))
                    None None None true))
    /\ flat stored (lit "batchSize") = Some (SNum (num_of_Z 10))
    /\ flat stored (lit "sheetName") = Some (SStr (lit "LinkedIn Posts"))
    /\ flat stored (lit "theme") = Some (SStr (lit "dark")).
Proof.
  destruct (saveSettings_getSettings_round_trip empty_store _ custom_settings
              eq_refl) as [stored [G [M _]]].
  exists stored. split; [exact G|]. rewrite !M. repeat split.
Defined.

Lemma getSettings_without_preferences (st : Store) :
  accepts (sync_area st) = true ->
  (forall stored, item_settings (sync_area st) = Some stored ->
                  scanningPreferences stored = None) ->
  exists s st',
    getSettings st = Ok (s, st')
    /\ scanningPreferences s = None
    /\ accepts (sync_area st') = true
    /\ (forall stored, item_settings (sync_area st') = Some stored ->
                       scanningPreferences stored = None).
Proof.
  intros Ha Hn. unfold getSettings, saveSettings, get, set, area_of, with_area.
  cbn [is_local]. rewrite Ha. cbn [bind read key_settings].
  destruct (item_settings (sync_area st)) as [s|] eqn:E.
  - exists s, st. split; [reflexivity|]. split; [now apply Hn|].
    split; [exact Ha|]. intros stored H. apply Hn. congruence.
  - cbn [bind]. eexists _, _. split; [reflexivity|]. split; [reflexivity|].
    cbn [sync_area write key_settings accepts item_settings].
    split; [exact Ha|]. intros stored H. inversion H. reflexivity.
Qed.

(** X27. With settings that come from this class alone, which have no
    scanning preferences, a scan that leaves one of maxPosts, includeImages
    and includeVideos to the settings is rejected with a TypeError before it
    looks at the page; and the settings that getSettings leaves in the
    store are of the same kind, so the next scan fares no better. *)
Theorem scan_needs_preferences_in_settings (st : Store) (base : Env)
        (options : Options) (fuel : nat) (s : Scanner) :
  isScanning s = false ->
  accepts (sync_area st) = true ->
  (forall stored, item_settings (sync_area st) = Some stored ->
                  scanningPreferences stored = None) ->
  reads_preferences options = true ->
  fst (startScan (over_storage st options base) options fuel s)
  = Rejected TypeError
  /\ extractedPosts
       (scanner (snd (startScan (over_storage st options base) options fuel s)))
     = []
  /\ looks (snd (startScan (over_storage st options base) options fuel s))
     = 0%nat
  /\ hd_error
       (events (snd (startScan (over_storage st options base) options fuel s)))
     = Some (scanError TypeError)
  /\ (forall stored,
        item_settings (sync_area (settled st)) = Some stored ->
        scanningPreferences stored = None).
Proof.
  intros Hs Ha Hn Hr.
  destruct (getSettings_without_preferences st Ha Hn)
    as [s0 [st' [G [P [_ Hn']]]]].
  assert (E : DOMScanner.getSettings (over_storage st options base)
              = Ok None).
  { unfold over_storage. cbn [DOMScanner.getSettings]. rewrite G.
    cbn [bind fst]. unfold preferences_read. now rewrite P, Hr. }
  unfold startScan. rewrite Hs. unfold scan. rewrite E.
  cbn [fst snd not_scanning dispatch scanner set_scanner extractedPosts events
       hd_error looks].
  rewrite await_posts, await_looks. cbn [scanner extractedPosts looks].
  repeat split.
  unfold settled. rewrite G. exact Hn'.
Qed.

Lemma scan_needs_preferences_in_settings_witness :
  fst (startScan (over_storage empty_store no_options steady_env)
         no_options 10 idle)
  = Rejected TypeError.
Proof.
  refine (proj1 (scan_needs_preferences_in_settings empty_store steady_env
                   no_options 10 idle eq_refl eq_refl _ eq_refl)).
  intros stored H. discriminate H.
Defined.

Lemma settled_areas (st : Store) :
  accepts (local_area (settled st)) = accepts (local_area st)
  /\ item_postsCache (sync_area (settled st))
     = item_postsCache (sync_area st)
  /\ accepts (sync_area (settled st)) = accepts (sync_area st).
Proof.
  unfold settled, getSettings, saveSettings, get, set, area_of, with_area.
  cbn [is_local].
  destruct (accepts (sync_area st)) eqn:Ha; cbn [bind].
  - destruct (read key_settings (sync_area st)); cbn [bind];
      repeat split; auto.
  - repeat split; auto.
Qed.

(** X28. A scan over this storage that resolves has stored the posts it
    resolves with: getPosts returns them afterwards.  getCachedPosts does
    not: it returns what it returned before the scan. *)
Theorem resolved_scan_is_stored (st : Store) (base : Env)
        (options : Options) (fuel : nat) (s : Scanner) (posts : list Post) :
  isScanning s = false ->
  fst (startScan (over_storage st options base) options fuel s)
  = Resolved posts ->
  exists st',
    Storage.savePosts (settled st) posts = Ok st'
    /\ getPosts st' = Ok (Some posts)
    /\ getCachedPosts st' = getCachedPosts st.
Proof.
  intros Hs H. unfold startScan in H. rewrite Hs in H.
  destruct (scan (over_storage st options base) options fuel _)
    as [r|e r|r] eqn:Hscan; try discriminate.
  cbn [fst] in H. inversion H. subst posts. clear H.
  destruct (scan_done _ _ _ _ _ Hscan) as [_ Hsave].
  unfold over_storage in Hsave. cbn [DOMScanner.savePosts] in Hsave.
  destruct (Storage.savePosts (settled st) (extractedPosts (scanner r)))
    as [st'|e] eqn:S; [|discriminate].
  exists st'. split; [reflexivity|].
  destruct (settled_areas st) as [_ [Hc Ha]].
  revert S. unfold Storage.savePosts, set, area_of, with_area.
  cbn [is_local].
  destruct (accepts (local_area (settled st))) eqn:Hl; [|discriminate].
  intros S. inversion S. subst st'.
  unfold getPosts, getCachedPosts, get, area_of.
  cbn [is_local local_area sync_area write read key_posts key_postsCache
       accepts item_posts].
  rewrite Hl, Ha, Hc. split; reflexivity.
Qed.

Lemma resolved_scan_is_stored_witness :
  exists st',
    Storage.savePosts (settled store_with_preferences) [a_post] = Ok st'
    /\ getPosts st' = Ok (Some [a_post])
    /\ getCachedPosts st' = getCachedPosts store_with_preferences.
Proof.
  exact (resolved_scan_is_stored store_with_preferences steady_env no_options
           10 idle [a_post] eq_refl eq_refl).
Defined.

End SettingsFacts.
